(** * vscode-magit: the menu-driven operation dispatcher

    A shallow embedding of [src/commands/fetchingCommands.ts],
    [src/commands/pushingCommands.ts] and the commit orchestrator
    [runCommitLikeCommand], followed by the properties of the menus, the
    switch compiler, the upstream-candidate resolver, the configure-then-retry
    actions and the orchestrator's clean-up.

    Asynchronous code is modelled by explicit state passing: a computation
    takes the current state (the shared repository object and the
    chronological trace of the effects performed so far) and returns either a
    value or a thrown error, together with the new state.  What the host
    answers (chooser, configuration store, git process, preview surface) is
    read from a [Host] record, so every property quantifies over all hosts. *)

From Stdlib Require Import List String Ascii ZArith Bool Lia Permutation.
Import ListNotations.
Open Scope string_scope.

Set Implicit Arguments.

(* ================================================================== *)
(** ** JavaScript values *)

(** The empty string literal. *)
Definition empty : string := EmptyString.

(** The double-quote character, as a one-character string. *)
Definition dquote : string := String (ascii_of_nat 34) EmptyString.

(** A value of type [string | undefined]. *)
Definition jsString := option string.

(** [x && ...] on a [string | undefined]: the value when it is truthy
    (defined and not the empty string). *)
Definition whenTruthy (x : jsString) : option string :=
  match x with
  | Some s => if (s =? empty) then None else Some s
  | None => None
  end.

(** An optional boolean used as a condition: [undefined] is falsy. *)
Definition truthyBool (b : option bool) : bool :=
  match b with Some true => true | _ => false end.

(** Interpolation [`${x}`] (and [s + x]) of a [string | undefined]. *)
Definition interpolate (x : jsString) : string :=
  match x with Some s => s | None => "undefined" end.

(** Strict equality [===] on [string | undefined]. *)
Definition strictEq (x y : jsString) : bool :=
  match x, y with
  | Some a, Some b => (a =? b)
  | None, None => true
  | _, _ => false
  end.

(** [a ?? b] *)
Definition nullish {A : Type} (a : option A) (b : A) : A :=
  match a with Some v => v | None => b end.

(** A settled promise. *)
Definition Error := string.

Inductive Settled (A : Type) : Type :=
| Fulfilled (value : A)
| Rejected (reason : Error).
Arguments Fulfilled {A} value.
Arguments Rejected {A} reason.

(* ================================================================== *)
(** ** Data model *)

(** Modelled from the spec: the enum [RefType] of [typings/git] is not among
    the sources; its members and their numeric values (used by the sort
    comparator [refB.type - refA.type]) rank remote heads above local
    branches. *)
Inductive RefType := Head | RemoteHead | Tag.

Definition RefType_value (t : RefType) : Z :=
  match t with Head => 0 | RemoteHead => 1 | Tag => 2 end%Z.

Definition RefType_eqb (a b : RefType) : bool :=
  (RefType_value a =? RefType_value b)%Z.

Record Ref := mkRef {
  ref_type : RefType;
  ref_name : jsString;
  ref_commit : jsString;
  ref_remote : jsString
}.

Record Remote := mkRemote {
  remote_name : string;
  remote_pushUrl : jsString
}.

(** [{ name, remote }]: the value of [HEAD.pushRemote], [HEAD.upstream] and
    [HEAD.upstreamRemote]. *)
Record TrackingRef := mkTracking {
  tr_name : string;
  tr_remote : string
}.

Record MagitBranch := mkBranch {
  head_name : jsString;
  upstream : option TrackingRef;
  pushRemote : option TrackingRef;
  upstreamRemote : option TrackingRef
}.

Record MagitState := mkMagitState { HEAD : option MagitBranch }.

Record RepositoryState := mkRepoState {
  remotes : list Remote;
  refs : list Ref
}.

Record MagitRepository := mkRepository {
  state : RepositoryState;
  magitState : option MagitState
}.

(** [repository.magitState?.HEAD] *)
Definition headOf (repository : MagitRepository) : option MagitBranch :=
  match magitState repository with
  | Some ms => HEAD ms
  | None => None
  end.

(** [repository.magitState?.HEAD?.name] *)
Definition headName (repository : MagitRepository) : jsString :=
  match headOf repository with
  | Some h => head_name h
  | None => None
  end.

(** [repository.magitState?.HEAD?.pushRemote] *)
Definition headPushRemote (repository : MagitRepository)
  : option TrackingRef :=
  match headOf repository with
  | Some h => pushRemote h
  | None => None
  end.

(** [repository.magitState?.HEAD?.upstream] *)
Definition headUpstream (repository : MagitRepository)
  : option TrackingRef :=
  match headOf repository with
  | Some h => upstream h
  | None => None
  end.

(** [repository.magitState?.HEAD?.upstreamRemote] *)
Definition headUpstreamRemote (repository : MagitRepository)
  : option TrackingRef :=
  match headOf repository with
  | Some h => upstreamRemote h
  | None => None
  end.

(** [x?.remote] *)
Definition remoteOf (x : option TrackingRef) : jsString :=
  option_map tr_remote x.

(** Modelled from the spec: the type [Switch] of [menu/menu] is not among
    the sources.  The menus declare [shortName], [longName] and
    [description]; the toggle is the [enabled] of the spec, and a switch
    without it is disabled. *)
Record Switch := mkSwitch {
  shortName : string;
  longName : string;
  description : string;
  enabled : bool
}.

(** A switch as the menus declare it: no toggle state yet. *)
Definition declared (short long descr : string) : Switch :=
  mkSwitch short long descr false.

Record QuickItem := mkQuickItem {
  qi_label : jsString;
  qi_description : jsString;
  qi_meta : jsString
}.

(** The actions a menu item can be bound to (the function references of the
    source). *)
Inductive Action :=
| act_fetchFromPushRemote
| act_fetchFromUpstream
| act_fetchFromElsewhere
| act_fetchAll
| act_fetchAnotherBranch
| act_pushToPushRemote
| act_pushSetPushRemote
| act_pushUpstream
| act_pushSetUpstream
| act_pushElsewhere
| act_pushTag
| act_pushAllTags.

Record MenuItem := mkMenuItem {
  label : string;
  mi_description : string;
  action : Action
}.

Record Menu := mkMenu {
  title : string;
  commands : list MenuItem
}.

(** [MenuState] without its [repository] field: the repository is the one
    shared object of the state below, which every alias denotes. *)
Record MenuState := mkMenuState { switches : list Switch }.

Record ProcessOutput := mkOutput { stdout : string; stderr : string }.

(** A [Uri] is compared with [===], that is by object identity. *)
Definition Uri := nat.
Record TextDocument := mkDocument { uri : Uri }.
Record TextEditor := mkEditor { document : TextDocument }.

(** [ViewColumn.One] is 1. *)
Definition ViewColumn := Z.
Definition ViewColumn_One : ViewColumn := 1%Z.

Inductive Section_ := Staged | Unstaged.

Record CommitEditorOptions := mkOptions {
  updatePostCommitTask : option bool;
  showStagedChanges : option bool;
  editor : jsString;
  propagateErrors : option bool
}.

(* ================================================================== *)
(** ** Effects *)

Inductive Event :=
  (** [QuickMenuUtil.showMenu(items)] *)
| EvQuickMenu (items : list QuickItem)
  (** [window.showInputBox({ prompt })] *)
| EvInputBox (prompt : string)
  (** [MagitUtils.chooseTag(repository, prompt)] *)
| EvChooseTag (prompt : string)
  (** [repository.setConfig(key, value)] is called *)
| EvSetConfig (key value : string)
  (** the write of [key] has completed *)
| EvConfigWritten (key value : string)
  (** the write of [key] has failed *)
| EvConfigFailed (key value : string)
  (** [HEAD.pushRemote = v] on the shared repository object *)
| EvAssignPushRemote (v : TrackingRef)
  (** [HEAD.upstreamRemote = v] on the shared repository object *)
| EvAssignUpstreamRemote (v : TrackingRef)
  (** [gitRun(repository, args, { env })] is called *)
| EvGitRun (args : list string) (env : option (string * string))
  (** [commands.executeCommand(command)] *)
| EvExecuteCommand (command : string)
  (** [window.setStatusBarMessage(text, timeout)] *)
| EvStatusBarMessage (text : string) (timeout : option Z)
  (** [dispose()] of the message shown with this text *)
| EvDispose (text : string)
  (** [showDiffSection(repository, section, preserveFocus)] is called *)
| EvShowDiffSection (section : Section_) (preserveFocus : bool)
  (** [setTimeout(r, ms)], awaited *)
| EvDelay (ms : Z)
  (** [MagitUtils.magitStatusAndUpdate(repository)], not awaited *)
| EvStatusAndUpdate
  (** [await commitSuccessMessageTask] returns or throws *)
| EvProcessSettled (ok : bool)
  (** [await stagedEditorTask] returns or throws *)
| EvPreviewSettled (ok : bool)
  (** [window.showTextDocument(document, { viewColumn, preview })] *)
| EvShowTextDocument (doc : Uri) (viewColumn : ViewColumn) (preview : bool).

Inductive Result (A : Type) : Type :=
| Returned (value : A)
| Thrown (e : Error).
Arguments Returned {A} value.
Arguments Thrown {A} e.

(** A computation over a state [S]. *)
Definition M (S A : Type) : Type := S -> Result A * S.

Class Traced (S : Type) := {
  trace_of : S -> list Event;
  with_trace : list Event -> S -> S
}.

Definition ret {S A : Type} (a : A) : M S A := fun s => (Returned a, s).

Definition bind {S A B : Type} (m : M S A) (k : A -> M S B) : M S B :=
  fun s =>
    match m s with
    | (Returned a, s') => k a s'
    | (Thrown e, s') => (Thrown e, s')
    end.

Definition throw {S A : Type} (e : Error) : M S A := fun s => (Thrown e, s).

Definition getState {S : Type} : M S S := fun s => (Returned s, s).

Definition modify {S : Type} (f : S -> S) : M S unit :=
  fun s => (Returned tt, f s).

Declare Scope js_scope.
Delimit Scope js_scope with js.
Notation "x <- m ;; k" := (bind m (fun x => k))
  (at level 61, m at next level, right associativity) : js_scope.
Notation "m ;; k" := (bind m (fun _ => k))
  (at level 61, right associativity) : js_scope.
Open Scope js_scope.

(** [try { body } catch (e) { handler e }] *)
Definition tryCatch {S A : Type} (body : M S A) (handler : Error -> M S A)
  : M S A :=
  fun s =>
    match body s with
    | (Returned a, s') => (Returned a, s')
    | (Thrown e, s') => handler e s'
    end.

(** [try { body } finally { final }]: [final] runs on every exit of [body];
    when [final] throws, its error replaces the outcome of [body]. *)
Definition tryFinally {S A : Type} (body : M S A) (final : M S unit)
  : M S A :=
  fun s =>
    match body s with
    | (r, s') =>
        match final s' with
        | (Returned _, s'') => (r, s'')
        | (Thrown e, s'') => (Thrown e, s'')
        end
    end.

(** [await] of a task whose outcome is known. *)
Definition await {S A : Type} (task : Settled A) : M S A :=
  match task with
  | Fulfilled v => ret v
  | Rejected e => throw e
  end.

Definition emit {S : Type} `{Traced S} (e : Event) : M S unit :=
  modify (fun s => with_trace (trace_of s ++ [e]) s).

(** [for (const x of xs) { body x }] *)
Fixpoint forOf {S A : Type} (xs : list A) (body : A -> M S unit) : M S unit :=
  match xs with
  | [] => ret tt
  | x :: rest => body x ;; forOf rest body
  end.

(** The state of the push and fetch actions. *)
Record World := mkWorld {
  repository : MagitRepository;
  trace : list Event
}.

#[export] Instance World_Traced : Traced World := {
  trace_of := trace;
  with_trace := fun t w => mkWorld (repository w) t
}.

(** The state of one invocation of the commit orchestrator: the trace and the
    two [let] variables that its [catch] and [finally] blocks read. *)
Record Frame := mkFrame {
  frame_trace : list Event;
  stagedEditorTask : option (Settled TextEditor);
  instructionStatus : option string
}.

#[export] Instance Frame_Traced : Traced Frame := {
  trace_of := frame_trace;
  with_trace := fun t f => mkFrame t (stagedEditorTask f) (instructionStatus f)
}.

(** What the host answers. Each answer depends on the arguments of the call
    only, but for the two awaited calls of the clean-up, made once for each
    visible editor, whose answer depends on what happened before the
    call. *)
Record Host := mkHost {
  (** [QuickMenuUtil.showMenu]: the chosen [meta], [undefined] on dismissal *)
  quickMenuAnswer : list QuickItem -> Settled jsString;
  (** [window.showInputBox], by prompt *)
  inputBoxAnswer : string -> jsString;
  (** [MagitUtils.chooseTag] *)
  chooseTagAnswer : string -> jsString;
  (** [repository.setConfig]: [None] when the write completes *)
  setConfigFailure : string -> string -> option Error;
  (** of the two writes of [Promise.all], the second settles first *)
  secondSettlesFirst : bool;
  (** [gitRun], by argument vector *)
  gitRunOutcome : list string -> Settled ProcessOutput;
  (** [showDiffSection] *)
  previewOutcome : Settled TextEditor;
  (** [window.visibleTextEditors] when the clean-up runs *)
  visibleTextEditors : list TextEditor;
  (** [process.platform], [execPath] *)
  platform : string;
  execPath : string;
  (** [window.showTextDocument] in the clean-up, by the trace before the
      call: [None] when it resolves *)
  showTextDocumentFailure : list Event -> option Error;
  (** [commands.executeCommand('workbench.action.closeActiveEditor')], by
      the trace before the call: [None] when it resolves *)
  closeActiveEditorFailure : list Event -> option Error
}.

(** The code of the repository that the sources call and do not contain;
    the functions below take it as a parameter. *)
Record Deps := mkDeps {
  (** [GitTextUtils.shortHash] *)
  shortHash : jsString -> string;
  (** [GitTextUtils.remoteBranchFullNameToSegments] *)
  remoteBranchFullNameToSegments : string -> jsString * jsString;
  (** [Constants.StatusMessageDisplayTimeout] *)
  StatusMessageDisplayTimeout : Z;
  (** [s.replace(Constants.LineSplitterRegex, ' ')] *)
  collapseLines : string -> string;
  (** [MagitUtils.oppositeActiveViewColumn()], by the trace before the
      call: the active editor changes while the clean-up runs *)
  oppositeActiveViewColumn : list Event -> ViewColumn
}.

(* ================================================================== *)
(** ** The switch compiler *)

(** Modelled from the spec: [MenuUtil.switchesToArgs] of [menu/menu] is not
    among the sources.  One token per enabled switch, its long form, in
    declaration order; a disabled switch contributes nothing. *)
Fixpoint switchesToArgs (sw : list Switch) : list string :=
  match sw with
  | [] => []
  | s :: rest =>
      if enabled s then longName s :: switchesToArgs rest
      else switchesToArgs rest
  end.

(* ================================================================== *)
(** ** Collaborators *)

Section Commands.

Variable deps : Deps.
Variable host : Host.

(** [gitRun(repository, args, { env })]: the process is started; the result
    is the task, that is its eventual outcome. *)
Definition gitRun {S : Type} `{Traced S} (args : list string)
    (env : option (string * string)) : M S (Settled ProcessOutput) :=
  emit (EvGitRun args env) ;;
  ret (gitRunOutcome host args).

(** [return gitRun(repository, args)] from an action: the action settles as
    the process does. *)
Definition returnGitRun (args : list string) : M World (option ProcessOutput) :=
  task <- gitRun args None ;;
  out <- await task ;;
  ret (Some out).

(** [await QuickMenuUtil.showMenu(items)] *)
Definition QuickMenuUtil_showMenu (items : list QuickItem) : M World jsString :=
  emit (EvQuickMenu items) ;;
  await (quickMenuAnswer host items).

(** A write started by [repository.setConfig(key, value)] settles. *)
Definition settleConfig (key value : string) : M World unit :=
  match setConfigFailure host key value with
  | None => emit (EvConfigWritten key value)
  | Some e => emit (EvConfigFailed key value) ;; throw e
  end.

(** [await repository.setConfig(key, value)] *)
Definition setConfig (key value : string) : M World unit :=
  emit (EvSetConfig key value) ;;
  settleConfig key value.

(** [await Promise.all([repository.setConfig(k1, v1),
    repository.setConfig(k2, v2)])]: both writes are started, in this order;
    they settle in the order the host decides, and the first failure rejects
    the whole. *)
Definition setConfigBoth (k1 v1 k2 v2 : string) : M World unit :=
  emit (EvSetConfig k1 v1) ;;
  emit (EvSetConfig k2 v2) ;;
  if secondSettlesFirst host
  then settleConfig k2 v2 ;; settleConfig k1 v1
  else settleConfig k1 v1 ;; settleConfig k2 v2.

Definition getRepository : M World MagitRepository :=
  w <- getState ;; ret (repository w).

(** [repository.magitState!.HEAD!.f = v]: a [TypeError] when [magitState] or
    [HEAD] is undefined. *)
Definition assignHead (f : MagitBranch -> MagitBranch) (e : Event)
  : M World unit :=
  repo <- getRepository ;;
  match headOf repo with
  | Some h =>
      modify (fun w =>
        mkWorld (mkRepository (state repo) (Some (mkMagitState (Some (f h)))))
                (trace w)) ;;
      emit e
  | None => throw "TypeError"
  end.

Definition assignPushRemote (v : TrackingRef) : M World unit :=
  assignHead
    (fun h => mkBranch (head_name h) (upstream h) (Some v) (upstreamRemote h))
    (EvAssignPushRemote v).

Definition assignUpstreamRemote (v : TrackingRef) : M World unit :=
  assignHead
    (fun h => mkBranch (head_name h) (upstream h) (pushRemote h) (Some v))
    (EvAssignUpstreamRemote v).

(** [repository.state.remotes.map(r => ({ label: r.name,
    description: r.pushUrl, meta: r.name }))] *)
Definition remoteItems (repo : MagitRepository) : list QuickItem :=
  map (fun r => mkQuickItem (Some (remote_name r)) (remote_pushUrl r)
                            (Some (remote_name r)))
      (remotes (state repo)).

(* ================================================================== *)
(** ** fetchingCommands.ts *)

Definition fetchingSwitches : list Switch :=
  [ declared "-p" "--prune" "Prune deleted branches" ].

Definition fetchingMenuItems (repo : MagitRepository) : list MenuItem :=
  (match headPushRemote repo with
   | Some pushRemote =>
       [ mkMenuItem "p" (tr_remote pushRemote) act_fetchFromPushRemote ]
   | None => []
   end)
  ++
  (match headUpstream repo with
   | Some upstream =>
       [ mkMenuItem "u" (tr_remote upstream) act_fetchFromUpstream ]
   | None => []
   end)
  ++
  [ mkMenuItem "e" "elsewhere" act_fetchFromElsewhere;
    mkMenuItem "a" "all remotes" act_fetchAll;
    mkMenuItem "o" "another branch" act_fetchAnotherBranch ].

(** The menu and the switches that [fetching] passes to
    [MenuUtil.showMenu]. *)
Definition fetching (repo : MagitRepository) : Menu * list Switch :=
  (mkMenu "Fetching" (fetchingMenuItems repo), fetchingSwitches).

Definition fetchFromPushRemote (ms : MenuState)
  : M World (option ProcessOutput) :=
  repo <- getRepository ;;
  match headPushRemote repo with
  | Some pushRemote =>
      returnGitRun ("fetch" :: switchesToArgs (switches ms)
                      ++ [tr_remote pushRemote])
  | None => ret None
  end.

Definition fetchFromUpstream (ms : MenuState)
  : M World (option ProcessOutput) :=
  repo <- getRepository ;;
  match headUpstreamRemote repo with
  | Some upstreamRemote =>
      returnGitRun ("fetch" :: switchesToArgs (switches ms)
                      ++ [tr_remote upstreamRemote])
  | None => ret None
  end.

Definition fetchFromElsewhere (ms : MenuState)
  : M World (option ProcessOutput) :=
  repo <- getRepository ;;
  chosenRemote <- QuickMenuUtil_showMenu (remoteItems repo) ;;
  match whenTruthy chosenRemote with
  | Some chosen =>
      returnGitRun ("fetch" :: switchesToArgs (switches ms) ++ [chosen])
  | None => ret None
  end.

Definition fetchAll (ms : MenuState) : M World (option ProcessOutput) :=
  returnGitRun ("fetch" :: switchesToArgs (switches ms) ++ ["--all"]).

Definition showInputBox (prompt : string) : M World jsString :=
  emit (EvInputBox prompt) ;;
  ret (inputBoxAnswer host prompt).

Definition fetchAnotherBranch (ms : MenuState)
  : M World (option ProcessOutput) :=
  remote <- showInputBox "Fetch from remote or url" ;;
  match whenTruthy remote with
  | Some remote =>
      branch <- showInputBox "Fetch branch" ;;
      match whenTruthy branch with
      | Some branch =>
          returnGitRun ("fetch" :: switchesToArgs (switches ms)
                          ++ [remote; "refs/heads/" ++ branch])
      | None => ret None
      end
  | None => ret None
  end.

(* ================================================================== *)
(** ** pushingCommands.ts *)

Definition generatePushingMenu (repo : MagitRepository) : Menu :=
  mkMenu "Pushing"
    ((match headPushRemote repo with
      | Some pushRemote =>
          [ mkMenuItem "p" (tr_remote pushRemote ++ "/" ++ tr_name pushRemote)
                       act_pushToPushRemote ]
      | None =>
          [ mkMenuItem "p" "pushRemote, after setting that"
                       act_pushSetPushRemote ]
      end)
     ++
     (match headUpstream repo with
      | Some upstream =>
          [ mkMenuItem "u" (tr_remote upstream ++ "/" ++ tr_name upstream)
                       act_pushUpstream ]
      | None =>
          [ mkMenuItem "u" "@{upstream}, after setting that"
                       act_pushSetUpstream ]
      end)
     ++
     [ mkMenuItem "e" "elsewhere" act_pushElsewhere;
       mkMenuItem "T" "a tag" act_pushTag;
       mkMenuItem "t" "all tags" act_pushAllTags ]).

Definition pushingSwitches : list Switch :=
  [ declared "-f" "--force-with-lease" "Force with lease";
    declared "-F" "--force" "Force";
    declared "-h" "--no-verify" "Disable hooks";
    declared "-d" "--dry-run" "Dry run" ].

(** The menu and the switches that [pushing] passes to
    [MenuUtil.showMenu]. *)
Definition pushing (repo : MagitRepository) : Menu * list Switch :=
  (generatePushingMenu repo, pushingSwitches).

Definition pushToPushRemote (ms : MenuState)
  : M World (option ProcessOutput) :=
  repo <- getRepository ;;
  let pushRemote := headPushRemote repo in
  let ref := headName repo in
  match whenTruthy (remoteOf pushRemote), whenTruthy ref with
  | Some remote, Some ref =>
      returnGitRun ("push" :: switchesToArgs (switches ms) ++ [remote; ref])
  | _, _ => ret None
  end.

Definition pushSetPushRemote (ms : MenuState)
  : M World (option ProcessOutput) :=
  repo <- getRepository ;;
  chosenRemote <- QuickMenuUtil_showMenu (remoteItems repo) ;;
  repo <- getRepository ;;
  let ref := headName repo in
  match whenTruthy chosenRemote, whenTruthy ref with
  | Some chosenRemote, Some ref =>
      setConfig ("branch." ++ ref ++ ".pushRemote") chosenRemote ;;
      assignPushRemote (mkTracking ref chosenRemote) ;;
      pushToPushRemote ms
  | _, _ => ret None
  end.

Definition pushUpstream (ms : MenuState)
  : M World (option ProcessOutput) :=
  repo <- getRepository ;;
  let upstreamRemote := headUpstreamRemote repo in
  let ref := headName repo in
  match whenTruthy (remoteOf upstreamRemote), whenTruthy ref with
  | Some remote, Some ref =>
      returnGitRun ("push" :: switchesToArgs (switches ms) ++ [remote; ref])
  | _, _ => ret None
  end.

(** *** The upstream-candidate resolver (the first half of
    [pushSetUpstream]) *)

(** [repository.state.remotes[0].name + '/' +
    repository.magitState?.HEAD?.name] *)
Definition expectedUpstreamName (r0 : Remote) (repo : MagitRepository)
  : string :=
  remote_name r0 ++ "/" ++ interpolate (headName repo).

(** The candidate that is injected. *)
Definition syntheticRef (r0 : Remote) (repo : MagitRepository) : Ref :=
  mkRef RemoteHead (Some (expectedUpstreamName r0 repo)) None
        (Some (remote_name r0)).

(** [choices] after the [if] of lines 90-97. *)
Definition upstreamChoices (repo : MagitRepository) : list Ref :=
  let choices := refs (state repo) in
  match remotes (state repo) with
  | r0 :: _ =>
      match find (fun ref => strictEq (ref_name ref)
                               (Some (expectedUpstreamName r0 repo)))
                 choices with
      | None => syntheticRef r0 repo :: choices
      | Some _ => choices
      end
  | [] => choices
  end.

(** [ref => ref.type !== RefType.Tag &&
    ref.name !== repository.magitState?.HEAD?.name] *)
Definition keepCandidate (repo : MagitRepository) (ref : Ref) : bool :=
  negb (RefType_eqb (ref_type ref) Tag)
  && negb (strictEq (ref_name ref) (headName repo)).

(** [(refA, refB) => refB.type - refA.type] *)
Definition byTypeDescending (refA refB : Ref) : Z :=
  (RefType_value (ref_type refB) - RefType_value (ref_type refA))%Z.

(** [Array.prototype.sort] is stable, and the result of a stable sort is
    determined by the comparator; insertion from the right computes it: an
    element goes in front of the first one it does not have to follow. *)
Fixpoint insertSorted {A : Type} (cmp : A -> A -> Z) (x : A) (l : list A)
  : list A :=
  match l with
  | [] => [x]
  | y :: rest =>
      if (cmp x y <=? 0)%Z then x :: l else y :: insertSorted cmp x rest
  end.

Definition sort {A : Type} (cmp : A -> A -> Z) (l : list A) : list A :=
  fold_right (insertSorted cmp) [] l.

(** [choices.filter(...).sort(...)] *)
Definition upstreamCandidates (repo : MagitRepository) : list Ref :=
  sort byTypeDescending (filter (keepCandidate repo) (upstreamChoices repo)).

(** [r => ({ label: r.name!, description: GitTextUtils.shortHash(r.commit),
    meta: r.name! })] *)
Definition refItem (r : Ref) : QuickItem :=
  mkQuickItem (ref_name r) (Some (shortHash deps (ref_commit r))) (ref_name r).

(** [refs], the list given to the chooser. *)
Definition upstreamItems (repo : MagitRepository) : list QuickItem :=
  map refItem (upstreamCandidates repo).

Definition pushSetUpstream (ms : MenuState)
  : M World (option ProcessOutput) :=
  repo <- getRepository ;;
  let refs := upstreamItems repo in
  chosenRemote <- tryCatch (QuickMenuUtil_showMenu refs)
                           (fun _ => ret None) ;;
  repo <- getRepository ;;
  let ref := headName repo in
  match whenTruthy chosenRemote, whenTruthy ref with
  | Some chosenRemote, Some ref =>
      let (remote, name) :=
        remoteBranchFullNameToSegments deps chosenRemote in
      match whenTruthy remote, whenTruthy name with
      | Some remote, Some name =>
          setConfigBoth ("branch." ++ ref ++ ".merge") ("refs/heads/" ++ name)
                        ("branch." ++ ref ++ ".remote") remote ;;
          assignUpstreamRemote (mkTracking name remote) ;;
          pushUpstream ms
      | _, _ => ret None
      end
  | _, _ => ret None
  end.

Definition pushElsewhere : M World (option ProcessOutput) :=
  emit (EvExecuteCommand "git.pushTo") ;;
  ret None.

(** [HEAD?.upstreamRemote?.remote ?? HEAD?.pushRemote?.remote] *)
Definition tagRemote (repo : MagitRepository) : jsString :=
  match remoteOf (headUpstreamRemote repo) with
  | Some r => Some r
  | None => remoteOf (headPushRemote repo)
  end.

Definition pushTag (ms : MenuState) : M World (option ProcessOutput) :=
  repo <- getRepository ;;
  let remote := tagRemote repo in
  emit (EvChooseTag "Push tag") ;;
  let tag := chooseTagAnswer host "Push tag" in
  match whenTruthy remote, whenTruthy tag with
  | Some remote, Some tag =>
      returnGitRun ("push" :: switchesToArgs (switches ms) ++ [remote; tag])
  | _, _ => ret None
  end.

Definition pushAllTags (ms : MenuState) : M World (option ProcessOutput) :=
  repo <- getRepository ;;
  match whenTruthy (tagRemote repo) with
  | Some remote =>
      returnGitRun ("push" :: switchesToArgs (switches ms)
                      ++ [remote; "--tags"])
  | None => ret None
  end.

(** Calling the function a menu item is bound to. *)
Definition invoke (a : Action) (ms : MenuState)
  : M World (option ProcessOutput) :=
  match a with
  | act_fetchFromPushRemote => fetchFromPushRemote ms
  | act_fetchFromUpstream => fetchFromUpstream ms
  | act_fetchFromElsewhere => fetchFromElsewhere ms
  | act_fetchAll => fetchAll ms
  | act_fetchAnotherBranch => fetchAnotherBranch ms
  | act_pushToPushRemote => pushToPushRemote ms
  | act_pushSetPushRemote => pushSetPushRemote ms
  | act_pushUpstream => pushUpstream ms
  | act_pushSetUpstream => pushSetUpstream ms
  | act_pushElsewhere => pushElsewhere
  | act_pushTag => pushTag ms
  | act_pushAllTags => pushAllTags ms
  end.

(** The item of a menu with a given label. *)
Definition itemLabelled (m : Menu) (l : string) : option MenuItem :=
  find (fun i => label i =? l) (commands m).

(* ================================================================== *)
(** ** The commit orchestrator *)

Definition instructionText : string :=
  "Type C-c C-c to finish, or C-c C-k to cancel".

Definition canceledText : string := "Commit canceled.".

Definition closeActiveEditor : string := "workbench.action.closeActiveEditor".

(** [execPath.split(/(?<=\.app)/)[0]]: the path up to the end of the first
    [.app], the whole path when there is none. *)
Fixpoint firstAppSegment (s : string) : string :=
  match s with
  | EmptyString => EmptyString
  | String c rest =>
      if prefix ".app" s then ".app" else String c (firstAppSegment rest)
  end.

Definition codePath : string :=
  if platform host =? "darwin"
  then firstAppSegment (execPath host) ++ "/Contents/Resources/app/bin/code"
  else "code".

Definition setStatusBarMessage (text : string) (timeout : option Z)
  : M Frame string :=
  emit (EvStatusBarMessage text timeout) ;;
  ret text.

Definition dispose (message : string) : M Frame unit :=
  emit (EvDispose message).

Definition showDiffSection (section : Section_) (preserveFocus : bool)
  : M Frame (Settled TextEditor) :=
  emit (EvShowDiffSection section preserveFocus) ;;
  ret (previewOutcome host).

Definition awaitProcess (task : Settled ProcessOutput)
  : M Frame ProcessOutput :=
  match task with
  | Fulfilled out => emit (EvProcessSettled true) ;; ret out
  | Rejected e => emit (EvProcessSettled false) ;; throw e
  end.

Definition awaitPreview (task : Settled TextEditor) : M Frame TextEditor :=
  match task with
  | Fulfilled ed => emit (EvPreviewSettled true) ;; ret ed
  | Rejected e => emit (EvPreviewSettled false) ;; throw e
  end.

Definition defaultOptions : CommitEditorOptions :=
  mkOptions None (Some true) None None.

(** The [try] block. *)
Definition commitTry (args : list string) (o : CommitEditorOptions)
  : M Frame unit :=
  st <- setStatusBarMessage instructionText None ;;
  modify (fun f => mkFrame (frame_trace f) (stagedEditorTask f) (Some st)) ;;
  (if truthyBool (showStagedChanges o)
   then task <- showDiffSection Staged true ;;
        modify (fun f =>
          mkFrame (frame_trace f) (Some task) (instructionStatus f))
   else ret tt) ;;
  let env := (nullish (editor o) "GIT_EDITOR",
              dquote ++ codePath ++ dquote ++ " --wait") in
  commitSuccessMessageTask <- gitRun args (Some env) ;;
  (if truthyBool (updatePostCommitTask o)
   then emit (EvDelay 100) ;; emit EvStatusAndUpdate
   else ret tt) ;;
  commitSuccessMessage <- awaitProcess commitSuccessMessageTask ;;
  f <- getState ;;
  match instructionStatus f with
  | Some d => dispose d
  | None => throw "TypeError"
  end ;;
  setStatusBarMessage
    ("Git finished: " ++ collapseLines deps (stdout commitSuccessMessage))
    (Some (StatusMessageDisplayTimeout deps)) ;;
  ret tt.

(** The [catch] block. *)
Definition commitCatch (o : CommitEditorOptions) (e : Error) : M Frame unit :=
  f <- getState ;;
  match instructionStatus f with
  | Some d => dispose d
  | None => ret tt
  end ;;
  setStatusBarMessage canceledText
    (Some (StatusMessageDisplayTimeout deps)) ;;
  if truthyBool (propagateErrors o) then throw e else ret tt.

(** [await window.showTextDocument(document, { viewColumn, preview })] *)
Definition showTextDocument (doc : Uri) (viewColumn : ViewColumn)
    (preview : bool) : M Frame unit :=
  f <- getState ;;
  emit (EvShowTextDocument doc viewColumn preview) ;;
  match showTextDocumentFailure host (frame_trace f) with
  | None => ret tt
  | Some e => throw e
  end.

(** [await commands.executeCommand('workbench.action.closeActiveEditor')] *)
Definition awaitCloseActiveEditor : M Frame unit :=
  f <- getState ;;
  emit (EvExecuteCommand closeActiveEditor) ;;
  match closeActiveEditorFailure host (frame_trace f) with
  | None => ret tt
  | Some e => throw e
  end.

(** The body of the [for] loop of the [finally] block.  The two awaited
    calls may fail; the last command is not awaited. *)
Definition closePreview (stagedEditor visibleEditor : TextEditor)
  : M Frame unit :=
  if (uri (document visibleEditor) =? uri (document stagedEditor))%nat
  then
    f <- getState ;;
    let stagedEditorViewColumn :=
      oppositeActiveViewColumn deps (frame_trace f) in
    showTextDocument (uri (document stagedEditor))
                     stagedEditorViewColumn false ;;
    awaitCloseActiveEditor ;;
    emit (EvExecuteCommand
            ("workbench.action.navigate"
               ++ (if (stagedEditorViewColumn =? ViewColumn_One)%Z
                   then "Right" else "Left")))
  else ret tt.

(** The [finally] block. *)
Definition commitFinally : M Frame unit :=
  f <- getState ;;
  stagedEditor <- match stagedEditorTask f with
                  | Some task => ed <- awaitPreview task ;; ret (Some ed)
                  | None => ret None
                  end ;;
  match stagedEditor with
  | Some stagedEditor =>
      forOf (visibleTextEditors host) (closePreview stagedEditor)
  | None => ret tt
  end.

(** [options] is [None] when the caller omits the third argument: the
    default value [{ showStagedChanges: true }] is used then, and only
    then. *)
Definition runCommitLikeCommand (args : list string)
    (options : option CommitEditorOptions) : M Frame unit :=
  let o := nullish options defaultOptions in
  tryFinally (tryCatch (commitTry args o) (commitCatch o)) commitFinally.

(** [commit({ repository, switches }, commitArgs)] *)
Definition commit (ms : MenuState) (commitArgs : list string)
  : M Frame unit :=
  runCommitLikeCommand
    ("commit" :: switchesToArgs (switches ms) ++ commitArgs) None.

End Commands.

(** The state in which an action or the orchestrator starts. *)
Definition startWorld (repo : MagitRepository) : World := mkWorld repo [].
Definition startFrame : Frame := mkFrame [] None None.

(* ================================================================== *)
(** ** Observations on states and traces *)

(** From here on [++] is the concatenation of lists; the concatenation of
    strings is written with its scope. *)
Open Scope list_scope.

(** The switches of a menu with every toggle off. *)
Definition disable (s : Switch) : Switch :=
  mkSwitch (shortName s) (longName s) (description s) false.

(** The label and the binding of each item, in display order. *)
Definition bindings (m : Menu) : list (string * Action) :=
  map (fun i => (label i, action i)) (commands m).

Definition labels (m : Menu) : list string := map label (commands m).

(** How an action that returns the process task settles. *)
Definition settles (task : Settled ProcessOutput)
  : Result (option ProcessOutput) :=
  match task with
  | Fulfilled out => Returned (Some out)
  | Rejected e => Thrown e
  end.

(** The repository after [HEAD.pushRemote = v]. *)
Definition withPushRemote (v : TrackingRef) (repo : MagitRepository)
  : MagitRepository :=
  match headOf repo with
  | Some h =>
      mkRepository (state repo)
        (Some (mkMagitState
           (Some (mkBranch (head_name h) (upstream h) (Some v)
                           (upstreamRemote h)))))
  | None => repo
  end.

(** The repository after [HEAD.upstreamRemote = v]. *)
Definition withUpstreamRemote (v : TrackingRef) (repo : MagitRepository)
  : MagitRepository :=
  match headOf repo with
  | Some h =>
      mkRepository (state repo)
        (Some (mkMagitState
           (Some (mkBranch (head_name h) (upstream h) (pushRemote h)
                           (Some v)))))
  | None => repo
  end.

(** A ref with the given name. *)
Definition named (n : string) (r : Ref) : bool :=
  strictEq (ref_name r) (Some n).

(** An item with the given label. *)
Definition labelled (n : string) (i : QuickItem) : bool :=
  strictEq (qi_label i) (Some n).

(** Every event of [t] that satisfies [q] has an event that satisfies [p]
    before it. *)
Definition Precedes (p q : Event -> Prop) (t : list Event) : Prop :=
  forall pre e post,
    t = (pre ++ e :: post)%list -> q e -> exists x, In x pre /\ p x.

(** The event changes the upstream tracking state or starts a process. *)
Definition changesOrPushes (e : Event) : Prop :=
  (exists v, e = EvAssignUpstreamRemote v)
  \/ (exists args env, e = EvGitRun args env).

(** The event shows the message that the commit was canceled. *)
Definition showsCanceled (e : Event) : Prop :=
  exists timeout, e = EvStatusBarMessage canceledText timeout.

(** The frame that the [try] and [catch] blocks of an invocation leave. *)
Definition afterBody (deps : Deps) (host : Host) (args : list string)
    (options : option CommitEditorOptions) : Frame :=
  snd (tryCatch (commitTry deps host args (nullish options defaultOptions))
                (commitCatch deps (nullish options defaultOptions))
                startFrame).

(** The [finally] block of an invocation completes: none of the awaited
    steps it reaches (the preview-open task, showing the document of the
    preview, closing the active editor) fails. *)
Definition cleanupCompletes (deps : Deps) (host : Host) (args : list string)
    (options : option CommitEditorOptions) : Prop :=
  fst (commitFinally deps host (afterBody deps host args options))
  = Returned tt.

(** The two events close the preview: the document [doc] is shown, not as a
    preview tab, which makes its editor the active one, and the active
    editor is closed next. *)
Definition closesPreview (doc : Uri) (e1 e2 : Event) : bool :=
  match e1, e2 with
  | EvShowTextDocument d _ false, EvExecuteCommand c =>
      (d =? doc)%nat && (c =? closeActiveEditor)
  | _, _ => false
  end.

(** How many times a trace closes the preview of [doc]. *)
Fixpoint previewCloses (doc : Uri) (t : list Event) : nat :=
  match t with
  | [] => 0
  | e1 :: rest =>
      match rest with
      | e2 :: _ => if closesPreview doc e1 e2 then 1 else 0
      | [] => 0
      end
      + previewCloses doc rest
  end.

(** The environment given to git. *)
Definition editorEnv (host : Host) (o : CommitEditorOptions)
  : string * string :=
  (nullish (editor o) "GIT_EDITOR",
   (dquote ++ codePath host ++ dquote ++ " --wait")%string).

(** The event closes the active editor. *)
Definition isClose (e : Event) : bool :=
  match e with
  | EvExecuteCommand c => (c =? closeActiveEditor)
  | _ => false
  end.

(** How many times a trace closes the active editor. *)
Definition closeCount (t : list Event) : nat := List.length (filter isClose t).

(** The visible editors that show the document of the preview. *)
Definition boundTo (stagedEditor : TextEditor) (visible : list TextEditor)
  : list TextEditor :=
  filter (fun v => (uri (document v) =? uri (document stagedEditor))%nat)
         visible.

(** The options in force: the default when the argument is omitted. *)
Definition inForce (options : option CommitEditorOptions)
  : CommitEditorOptions :=
  nullish options defaultOptions.

(* ================================================================== *)
(** ** Sample inputs *)

Module Sample.

(** A splitter at the first [/], as an instance of
    [remoteBranchFullNameToSegments]. *)
Fixpoint splitAtSlash (s : string) : string * string :=
  match s with
  | EmptyString => (EmptyString, EmptyString)
  | String c rest =>
      if Ascii.eqb c "/"%char then (EmptyString, rest)
      else let (a, b) := splitAtSlash rest in (String c a, b)
  end.

Definition deps : Deps :=
  mkDeps (fun c => match c with
                   | Some s => substring 0 7 s
                   | None => EmptyString
                   end)
         (fun s => let (a, b) := splitAtSlash s in (Some a, Some b))
         5000%Z
         (fun s => s)
         (fun _ => 2%Z).

Definition origin : Remote := mkRemote "origin" (Some "git@host:repo.git").

Definition branch (n : string) (up pr ur : option TrackingRef)
  : option MagitState :=
  Some (mkMagitState (Some (mkBranch (Some n) up pr ur))).

(** On [main], one remote, nothing configured. *)
Definition fresh : MagitRepository :=
  mkRepository
    (mkRepoState [origin]
       [ mkRef Head (Some "main") (Some "1111111aaaa") None;
         mkRef Tag (Some "v1.0.0") (Some "2222222bbbb") None;
         mkRef RemoteHead (Some "origin/dev") (Some "3333333cccc")
               (Some "origin") ])
    (branch "main" None None None).

(** On [main], tracking [origin/main], no push-remote, and no
    [upstreamRemote]. *)
Definition tracking : MagitRepository :=
  mkRepository (state fresh)
    (branch "main" (Some (mkTracking "main" "origin")) None None).

(** On [feature]; no ref is named [origin/feature]. *)
Definition onFeature : MagitRepository :=
  mkRepository (state fresh) (branch "feature" None None None).

(** On [main]; the only ref named [origin/main] is a tag. *)
Definition tagNamedLikeUpstream : MagitRepository :=
  mkRepository
    (mkRepoState [origin]
       [ mkRef Tag (Some "origin/main") (Some "4444444dddd") None ])
    (branch "main" None None None).

Definition preview : TextEditor := mkEditor (mkDocument 7).
Definition other : TextEditor := mkEditor (mkDocument 3).

Definition failed : Settled ProcessOutput := Rejected "exit 1".
Definition succeeded : Settled ProcessOutput :=
  Fulfilled (mkOutput "done" EmptyString).

(** The user picks [answer]; every write completes; git settles as [git];
    the preview opens and is shown by the editors [visible]; the calls of
    the clean-up resolve. *)
Definition host (answer : jsString) (git : Settled ProcessOutput)
    (visible : list TextEditor) : Host :=
  mkHost (fun _ => Fulfilled answer) (fun _ => None) (fun _ => None)
         (fun _ _ => None) false
         (fun _ => git)
         (Fulfilled preview) visible
         "linux" "/usr/share/code/code"
         (fun _ => None) (fun _ => None).

(** As [host] with git failing and the preview visible, but the document of
    the preview cannot be shown. *)
Definition hostNoShow : Host :=
  mkHost (fun _ => Fulfilled None) (fun _ => None) (fun _ => None)
         (fun _ _ => None) false
         (fun _ => Rejected "exit 1")
         (Fulfilled preview) [preview]
         "linux" "/usr/share/code/code"
         (fun _ => Some "cannot show") (fun _ => None).

(** Git fails, and the preview fails to open. *)
Definition hostNoPreview : Host :=
  mkHost (fun _ => Fulfilled None) (fun _ => None) (fun _ => None)
         (fun _ _ => None) false
         (fun _ => failed)
         (Rejected "cannot open") []
         "linux" "/usr/share/code/code"
         (fun _ => None) (fun _ => None).

Definition someSwitches : list Switch :=
  [ mkSwitch "-f" "--force-with-lease" "Force with lease" true;
    mkSwitch "-F" "--force" "Force" false;
    mkSwitch "-d" "--dry-run" "Dry run" true ].

End Sample.

(* ================================================================== *)
(** ** The commit menu *)

(** What an item of the commit menu is bound to: [commit], possibly closed
    over extra arguments, or [fixup]. *)
Inductive CommitAction :=
| act_commit (commitArgs : list string)
| act_fixup.

Record CommitMenuItem := mkCommitMenuItem {
  cm_label : string;
  cm_description : string;
  cm_action : CommitAction
}.

Definition commitMenu : string * list CommitMenuItem :=
  ("Committing",
   [ mkCommitMenuItem "c" "Commit" (act_commit []);
     mkCommitMenuItem "a" "Amend" (act_commit ["--amend"]);
     mkCommitMenuItem "e" "Extend" (act_commit ["--amend"; "--no-edit"]);
     mkCommitMenuItem "w" "Reword" (act_commit ["--amend"; "--only"]);
     mkCommitMenuItem "f" "Fixup" act_fixup ]).

Definition commitSwitches : list Switch :=
  [ declared "-a" "--all" "Stage all modified and deleted files";
    declared "-e" "--allow-empty" "Allow empty commit" ].

(** The menu and the switches that [magitCommit] passes to
    [MenuUtil.showMenu]. *)
Definition magitCommit : (string * list CommitMenuItem) * list Switch :=
  (commitMenu, commitSwitches).

(** The state of an action of the commit menu: the prompts of the commit
    chooser shown so far, and the frame of the orchestrator. *)
Record CommitWorld := mkCommitWorld {
  chooserPrompts : list string;
  frame : Frame
}.

#[export] Instance CommitWorld_Traced : Traced CommitWorld := {
  trace_of := fun w => frame_trace (frame w);
  with_trace := fun t w =>
    mkCommitWorld (chooserPrompts w)
      (mkFrame t (stagedEditorTask (frame w)) (instructionStatus (frame w)))
}.

Definition startCommitWorld : CommitWorld := mkCommitWorld [] startFrame.

(** A computation of the orchestrator, run inside an action of the menu. *)
Definition inFrame {A : Type} (m : M Frame A) : M CommitWorld A :=
  fun w =>
    match m (frame w) with
    | (r, f) => (r, mkCommitWorld (chooserPrompts w) f)
    end.

Section CommitMenu.

Variable deps : Deps.
Variable host : Host.

(** What [MagitUtils.chooseCommit] answers, by prompt; [undefined] when no
    commit is chosen. *)
Variable chooseCommitAnswer : string -> jsString.

(** [await MagitUtils.chooseCommit(repository, prompt)] *)
Definition chooseCommit (prompt : string) : M CommitWorld jsString :=
  modify (fun w => mkCommitWorld (chooserPrompts w ++ [prompt]) (frame w)) ;;
  ret (chooseCommitAnswer prompt).

Definition fixup (ms : MenuState) : M CommitWorld (option ProcessOutput) :=
  sha <- chooseCommit "Fixup commit" ;;
  match whenTruthy sha with
  | Some sha =>
      task <- gitRun host
                ("commit" :: switchesToArgs (switches ms) ++ ["--fixup"; sha])
                None ;;
      out <- await task ;;
      ret (Some out)
  | None => throw "No commit chosen to fixup"
  end.

(** Calling the function an item of the commit menu is bound to. *)
Definition invokeCommit (a : CommitAction) (ms : MenuState)
  : M CommitWorld (option ProcessOutput) :=
  match a with
  | act_commit commitArgs =>
      inFrame (commit deps host ms commitArgs) ;; ret None
  | act_fixup => fixup ms
  end.

End CommitMenu.

(* ================================================================== *)
(** ** The folding range provider *)

Module Folding.

(** A view: what the provider reads of it.  Its induction principle, over
    the views below it, is [View_below_ind]. *)
#[warnings="-register-all"]
Inductive View := mkView {
  isFoldable : bool;
  startLine : Z;
  endLine : Z;
  subViews : list View
}.

(** [new vscode.FoldingRange(start, end)] *)
Definition FoldingRange : Type := Z * Z.

Definition rangeOf (v : View) : FoldingRange := (startLine v, endLine v).

(** [this.flattenSubviews(v.subViews)] *)
Fixpoint flattenBelow (v : View) : list View :=
  (flat_map flattenBelow (subViews v) ++ subViews v)%list.

(** [flattenSubviews(subviews)]: what is below each subview, in order, and
    then the subviews themselves. *)
Definition flattenSubviews (subviews : list View) : list View :=
  (flat_map flattenBelow subviews ++ subviews)%list.

(** [currentRepository.views]: a [Map] from the text of a uri to a view, as
    the list of its entries; [get] returns the entry of the key. *)
Definition ViewMap : Type := list (string * View).

Fixpoint mapGet (key : string) (m : ViewMap) : option View :=
  match m with
  | [] => None
  | (k, v) :: rest => if (k =? key) then Some v else mapGet key rest
  end.

(** What the provider reads of a repository. *)
Record ViewRepository := mkViewRepository { views : option ViewMap }.

Section Provider.

(** [MagitUtils.getCurrentMagitRepo] and [Uri.toString] are not among the
    sources. *)
Variable getCurrentMagitRepo : TextDocument -> option ViewRepository.
Variable uriToString : Uri -> string.

(** [views.forEach(v => { if (v.isFoldable) foldingRanges.push(...) })] *)
Definition pushFoldable (foldingRanges : list FoldingRange) (views : list View)
  : list FoldingRange :=
  fold_left
    (fun ranges v => if isFoldable v then (ranges ++ [rangeOf v])%list
                     else ranges)
    views foldingRanges.

Definition provideFoldingRanges (document : TextDocument)
  : list FoldingRange :=
  let foldingRanges := [] in
  match getCurrentMagitRepo document with
  | Some currentRepository =>
      match views currentRepository with
      | Some vs =>
          match mapGet (uriToString (uri document)) vs with
          | Some currentView =>
              pushFoldable foldingRanges
                (flattenSubviews (subViews currentView))
          | None => foldingRanges
          end
      | None => foldingRanges
      end
  | None => foldingRanges
  end.

End Provider.

(** The number of views of a forest. *)
Fixpoint sizeBelow (v : View) : nat :=
  list_sum (map (fun c => S (sizeBelow c)) (subViews v)).

Definition forestSize (l : list View) : nat :=
  list_sum (map (fun c => S (sizeBelow c)) l).

(** [v] is one of the views of the forest [l], at any depth. *)
Inductive Within (v : View) : list View -> Prop :=
| Within_here (l : list View) : In v l -> Within v l
| Within_below (c : View) (l : list View) :
    In c l -> Within v (subViews c) -> Within v l.

End Folding.

(* ================================================================== *)
(** ** Further observations *)

(** The event starts a git process. *)
Definition isGitRun (e : Event) : bool :=
  match e with EvGitRun _ _ => true | _ => false end.

(** The event writes configuration or changes the tracking state. *)
Definition isWrite (e : Event) : bool :=
  match e with
  | EvSetConfig _ _ | EvConfigWritten _ _ | EvConfigFailed _ _
  | EvAssignPushRemote _ | EvAssignUpstreamRemote _ => true
  | _ => false
  end.

(** The event belongs to the preview or to its clean-up. *)
Definition isPreviewEvent (e : Event) : bool :=
  match e with
  | EvShowDiffSection _ _ | EvPreviewSettled _ | EvShowTextDocument _ _ _
  | EvExecuteCommand _ => true
  | _ => false
  end.

(** The event shows a message in the status bar. *)
Definition isStatusMessage (e : Event) : bool :=
  match e with EvStatusBarMessage _ _ => true | _ => false end.

(** The event disposes a message of the status bar. *)
Definition isDispose (e : Event) : bool :=
  match e with EvDispose _ => true | _ => false end.

(** The event is one of the [finally] block. *)
Definition isCleanup (e : Event) : bool :=
  match e with
  | EvPreviewSettled _ | EvShowTextDocument _ _ _ | EvExecuteCommand _ => true
  | _ => false
  end.

(** The event observes the outcome of the process. *)
Definition isProcessSettled (e : Event) : Prop :=
  exists ok, e = EvProcessSettled ok.

(** How many events of a trace satisfy [p]. *)
Definition countOf (p : Event -> bool) (t : list Event) : nat :=
  List.length (filter p t).

(** The event starts [git verb <long forms of the enabled switches> ...],
    without an environment. *)
Definition runsVerb (verb : string) (sw : list Switch) (e : Event) : Prop :=
  exists tail, e = EvGitRun (verb :: switchesToArgs sw ++ tail) None.

(** The actions of the fetching menu. *)
Definition isFetchAction (a : Action) : bool :=
  match a with
  | act_fetchFromPushRemote | act_fetchFromUpstream | act_fetchFromElsewhere
  | act_fetchAll | act_fetchAnotherBranch => true
  | _ => false
  end.

(** The two actions that configure before they push. *)
Definition isSetAction (a : Action) : bool :=
  match a with
  | act_pushSetPushRemote | act_pushSetUpstream => true
  | _ => false
  end.

Definition verbOf (a : Action) : string :=
  if isFetchAction a then "fetch" else "push".

(** An outcome of an action started in [w]: the repository is as it was;
    the events [new] were added to the trace, none of them a write, at most
    one of them a process start, and that one [git verb <long forms> ...]. *)
Definition ReadOnlyRun (verb : string) (sw : list Switch) (w : World)
    (outcome : Result (option ProcessOutput) * World) : Prop :=
  repository (snd outcome) = repository w
  /\ exists new,
       trace (snd outcome) = trace w ++ new
       /\ (forall e, In e new -> isWrite e = false)
       /\ List.length (filter isGitRun new) <= 1
       /\ (forall e, In e new -> isGitRun e = true -> runsVerb verb sw e).

Definition isRemoteHead (r : Ref) : bool := RefType_eqb (ref_type r) RemoteHead.
Definition isHead (r : Ref) : bool := RefType_eqb (ref_type r) Head.
Definition isTag (r : Ref) : bool := RefType_eqb (ref_type r) Tag.

(* ================================================================== *)
(** ** Further sample inputs *)

Module More.

(** On [main] with push-remote [origin] and nothing else configured. *)
Definition pushConfigured : MagitRepository :=
  mkRepository (state Sample.fresh)
    (Sample.branch "main" None (Some (mkTracking "main" "origin")) None).

(** The chooser fails; the inputs are [upstream] and [topic]; the tag
    chosen is [v1.0.0]; git succeeds. *)
Definition host : Host :=
  mkHost (fun _ => Rejected "chooser failed")
         (fun prompt => if (prompt =? "Fetch branch")%string
                        then Some "topic" else Some "upstream")
         (fun _ => Some "v1.0.0")
         (fun _ _ => None) false
         (fun _ => Sample.succeeded)
         (Fulfilled Sample.preview) [Sample.preview]
         "linux" "/usr/share/code/code"
         (fun _ => None) (fun _ => None).

(** No commit is chosen. *)
Definition noCommit : string -> jsString := fun _ => None.

(** The options that set nothing. *)
Definition bare : CommitEditorOptions := mkOptions None None None None.

Definition leaf (foldable : bool) (first last : Z) : Folding.View :=
  Folding.mkView foldable first last [].

(** A section with two hunks, the second one not foldable. *)
Definition section : Folding.View :=
  Folding.mkView true 2 9 [leaf true 3 5; leaf false 6 9].

(** The view of a document: a header and the section. *)
Definition root : Folding.View :=
  Folding.mkView true 0 9 [leaf false 0 1; section].

Definition document : TextDocument := mkDocument 7.

Definition currentRepo (d : TextDocument) : option Folding.ViewRepository :=
  Some (Folding.mkViewRepository (Some [("magit:status", root)])).

Definition text (u : Uri) : string := "magit:status".

End More.

(* ================================================================== *)
(** * Properties *)

(** ** The switch compiler *)

Lemma switchesToArgs_filter (sw : list Switch) :
  switchesToArgs sw = map longName (filter enabled sw).
Proof.
  induction sw as [| s rest IH]; simpl; [reflexivity |].
  destruct (enabled s); simpl; now rewrite IH.
Qed.

Lemma switchesToArgs_app (a b : list Switch) :
  switchesToArgs (a ++ b) = switchesToArgs a ++ switchesToArgs b.
Proof.
  induction a as [| s rest IH]; simpl; [reflexivity |].
  destruct (enabled s); simpl; now rewrite IH.
Qed.

Lemma switchesToArgs_disabled (sw : list Switch) :
  switchesToArgs (map disable sw) = [].
Proof.
  induction sw as [| s rest IH]; simpl; [reflexivity | exact IH].
Qed.

(** C7. The compiled argument vector is the long form of each enabled
    switch, in declaration order, and nothing else; its length is the number
    of enabled switches; compiling a concatenation concatenates (so the order
    of declaration is kept); with every switch disabled the vector is
    empty. *)
Theorem switchesToArgs_spec (sw more : list Switch) :
  switchesToArgs sw = map longName (filter enabled sw)
  /\ List.length (switchesToArgs sw) = List.length (filter enabled sw)
  /\ switchesToArgs (sw ++ more) = switchesToArgs sw ++ switchesToArgs more
  /\ switchesToArgs (map disable sw) = [].
Proof.
  repeat split.
  - apply switchesToArgs_filter.
  - rewrite switchesToArgs_filter. apply length_map.
  - apply switchesToArgs_app.
  - apply switchesToArgs_disabled.
Qed.

Example switchesToArgs_sample :
  switchesToArgs Sample.someSwitches = ["--force-with-lease"; "--dry-run"].
Proof. reflexivity. Qed.

(* ================================================================== *)
(** ** The menus *)

Section Menus.

Variable deps : Deps.
Variable host : Host.

Lemma fetching_offers_p (repo : MagitRepository) :
  In "p" (labels (fst (fetching repo))) <-> headPushRemote repo <> None.
Proof.
  unfold labels, fetching, fetchingMenuItems; simpl.
  destruct (headPushRemote repo) as [pr |], (headUpstream repo) as [up |];
    simpl; split; intro H; try discriminate; try tauto;
    try (exfalso; now apply H);
    repeat (destruct H as [H | H]; try discriminate H); try contradiction.
Qed.

(** C8. With an upstream and no push-remote the fetching menu is [u], [e],
    [a], [o], bound to fetch-from-upstream, fetch-elsewhere,
    fetch-all-remotes and fetch-another-branch; and for every repository
    [p] is offered exactly when a push-remote is configured. *)
Theorem fetching_menu_upstream_only (repo : MagitRepository)
    (up : TrackingRef) :
  headUpstream repo = Some up ->
  headPushRemote repo = None ->
  bindings (fst (fetching repo)) =
    [ ("u", act_fetchFromUpstream); ("e", act_fetchFromElsewhere);
      ("a", act_fetchAll); ("o", act_fetchAnotherBranch) ]
  /\ forall any : MagitRepository,
       In "p" (labels (fst (fetching any))) <-> headPushRemote any <> None.
Proof.
  intros Hup Hpr. split.
  - unfold bindings, fetching, fetchingMenuItems; simpl.
    now rewrite Hup, Hpr.
  - apply fetching_offers_p.
Qed.

(** C10. When [HEAD.upstream] is set and [HEAD.upstreamRemote] is not, both
    menus offer [u], bound to the direct upstream action, and invoking that
    action returns [undefined] and leaves the repository and the trace as
    they were: nothing is written and no process is started. *)
Theorem upstream_item_without_upstreamRemote (repo : MagitRepository)
    (up : TrackingRef) (ms : MenuState) (t : list Event) :
  headUpstream repo = Some up ->
  headUpstreamRemote repo = None ->
  (exists i, itemLabelled (fst (fetching repo)) "u" = Some i
             /\ action i = act_fetchFromUpstream
             /\ invoke deps host (action i) ms (mkWorld repo t)
                = (Returned None, mkWorld repo t))
  /\
  (exists i, itemLabelled (fst (pushing repo)) "u" = Some i
             /\ action i = act_pushUpstream
             /\ invoke deps host (action i) ms (mkWorld repo t)
                = (Returned None, mkWorld repo t)).
Proof.
  intros Hup Hur. split.
  - exists (mkMenuItem "u" (tr_remote up) act_fetchFromUpstream).
    repeat split.
    + unfold itemLabelled, fetching, fetchingMenuItems; simpl.
      rewrite Hup. destruct (headPushRemote repo); reflexivity.
    + unfold invoke, fetchFromUpstream, bind, getRepository, getState, ret;
        simpl.
      now rewrite Hur.
  - exists (mkMenuItem "u" (tr_remote up ++ "/" ++ tr_name up)%string
                       act_pushUpstream).
    repeat split.
    + unfold itemLabelled, pushing, generatePushingMenu; simpl.
      rewrite Hup. destruct (headPushRemote repo); reflexivity.
    + unfold invoke, pushUpstream, bind, getRepository, getState, ret;
        simpl.
      now rewrite Hur.
Qed.

End Menus.

Lemma fetching_menu_upstream_only_witness :
  headUpstream Sample.tracking = Some (mkTracking "main" "origin")
  /\ headPushRemote Sample.tracking = None
  /\ labels (fst (fetching Sample.tracking)) = ["u"; "e"; "a"; "o"].
Proof.
  split; [reflexivity | split; [reflexivity |]].
  pose proof (@fetching_menu_upstream_only Sample.tracking
                (mkTracking "main" "origin") eq_refl eq_refl) as [H _].
  unfold labels. unfold bindings in H.
  rewrite <- (map_map (fun i => (label i, action i)) fst), H.
  reflexivity.
Defined.

Lemma upstream_item_without_upstreamRemote_witness :
  headUpstream Sample.tracking = Some (mkTracking "main" "origin")
  /\ headUpstreamRemote Sample.tracking = None
  /\ exists i,
       itemLabelled (fst (pushing Sample.tracking)) "u" = Some i
       /\ action i = act_pushUpstream
       /\ invoke Sample.deps (Sample.host None Sample.failed []) (action i)
            (mkMenuState Sample.someSwitches) (mkWorld Sample.tracking [])
          = (Returned None, mkWorld Sample.tracking []).
Proof.
  split; [reflexivity | split; [reflexivity |]].
  exact (proj2 (@upstream_item_without_upstreamRemote Sample.deps
                  (Sample.host None Sample.failed []) Sample.tracking
                  (mkTracking "main" "origin")
                  (mkMenuState Sample.someSwitches) [] eq_refl eq_refl)).
Defined.

(* ================================================================== *)
(** ** The upstream-candidate resolver *)

Section Sorting.

Context {A : Type} (cmp : A -> A -> Z).

Lemma insertSorted_perm (x : A) (l : list A) :
  Permutation (insertSorted cmp x l) (x :: l).
Proof.
  induction l as [| y rest IH]; simpl; [reflexivity |].
  destruct (cmp x y <=? 0)%Z; [reflexivity |].
  rewrite IH. apply perm_swap.
Qed.

Lemma sort_perm (l : list A) : Permutation (sort cmp l) l.
Proof.
  induction l as [| x rest IH]; simpl; [reflexivity |].
  rewrite insertSorted_perm. now constructor.
Qed.

Lemma sort_In (x : A) (l : list A) : In x (sort cmp l) <-> In x l.
Proof.
  split; apply Permutation_in; [| symmetry]; apply sort_perm.
Qed.

Lemma sort_filter_length (keep : A -> bool) (l : list A) :
  List.length (filter keep (sort cmp l)) = List.length (filter keep l).
Proof.
  induction l as [| x rest IH]; simpl; [reflexivity |].
  transitivity (List.length (filter keep (x :: sort cmp rest))).
  - clear IH. induction (sort cmp rest) as [| y tl IHs]; simpl;
      [reflexivity |].
    destruct (cmp x y <=? 0)%Z; [reflexivity |].
    simpl. simpl in IHs.
    destruct (keep y), (keep x); simpl in *; lia.
  - simpl. destruct (keep x); simpl; now rewrite IH.
Qed.

(** An element that may stay in front of every other one is the first of
    the sorted list, and the others are sorted behind it. *)
Lemma sort_first (x : A) (l : list A) :
  (forall y, In y l -> (cmp x y <= 0)%Z) ->
  sort cmp (x :: l) = x :: sort cmp l.
Proof.
  intro Hmax. simpl.
  assert (Hs : forall y, In y (sort cmp l) -> (cmp x y <= 0)%Z)
    by (intros y Hy; apply Hmax, sort_In, Hy).
  destruct (sort cmp l) as [| y tl]; simpl; [reflexivity |].
  destruct (Z.leb_spec (cmp x y) 0) as [_ | Hgt]; [reflexivity |].
  specialize (Hs y (or_introl eq_refl)). lia.
Qed.

End Sorting.

Lemma length_append (a b : string) :
  String.length (a ++ b)%string = String.length a + String.length b.
Proof.
  induction a as [| c a IH]; simpl; [reflexivity | now rewrite IH].
Qed.

Lemma named_name (n : string) (r : Ref) :
  named n r = true <-> ref_name r = Some n.
Proof.
  unfold named, strictEq. destruct (ref_name r) as [m |].
  - rewrite String.eqb_eq. split; congruence.
  - split; discriminate.
Qed.

Section Resolver.

Variable deps : Deps.

(** The injected name is never the name of the current branch. *)
Lemma expected_is_not_head (r0 : Remote) (repo : MagitRepository) :
  strictEq (Some (expectedUpstreamName r0 repo)) (headName repo) = false.
Proof.
  unfold strictEq, expectedUpstreamName.
  destruct (headName repo) as [h |]; [| reflexivity].
  apply String.eqb_neq. intro E.
  apply (f_equal String.length) in E.
  rewrite !length_append in E. simpl in E. lia.
Qed.

Lemma synthetic_is_kept (r0 : Remote) (repo : MagitRepository) :
  keepCandidate repo (syntheticRef r0 repo) = true.
Proof.
  unfold keepCandidate.
  change (ref_name (syntheticRef r0 repo))
    with (Some (expectedUpstreamName r0 repo)).
  now rewrite expected_is_not_head.
Qed.

(** After the filter no tag is left, so a remote head may stay in front of
    every candidate. *)
Lemma remote_head_first (repo : MagitRepository) (x y : Ref) (l : list Ref) :
  ref_type x = RemoteHead ->
  In y (filter (keepCandidate repo) l) ->
  (byTypeDescending x y <= 0)%Z.
Proof.
  intros Hx Hy. apply filter_In in Hy as [_ Hk].
  unfold keepCandidate in Hk. apply andb_prop in Hk as [Ht _].
  unfold byTypeDescending. rewrite Hx.
  destruct (ref_type y); simpl in *; try lia; discriminate.
Qed.

(** The two cases of the resolver. *)
Lemma upstreamCandidates_injected (repo : MagitRepository) (r0 : Remote)
    (rest : list Remote) :
  remotes (state repo) = r0 :: rest ->
  find (named (expectedUpstreamName r0 repo)) (refs (state repo)) = None ->
  upstreamChoices repo = syntheticRef r0 repo :: refs (state repo)
  /\ upstreamCandidates repo =
       syntheticRef r0 repo
         :: sort byTypeDescending
              (filter (keepCandidate repo) (refs (state repo))).
Proof.
  intros Hr Hnone.
  assert (Hc : upstreamChoices repo = syntheticRef r0 repo :: refs (state repo)).
  { unfold upstreamChoices. rewrite Hr. unfold named in Hnone.
    now rewrite Hnone. }
  split; [exact Hc |].
  unfold upstreamCandidates. rewrite Hc. simpl filter.
  rewrite synthetic_is_kept.
  apply sort_first. intros y Hy.
  now apply (@remote_head_first repo _ y (refs (state repo))).
Qed.

Lemma upstreamCandidates_present (repo : MagitRepository) (r0 : Remote)
    (rest : list Remote) (found : Ref) :
  remotes (state repo) = r0 :: rest ->
  find (named (expectedUpstreamName r0 repo)) (refs (state repo))
    = Some found ->
  upstreamChoices repo = refs (state repo)
  /\ upstreamCandidates repo =
       sort byTypeDescending
         (filter (keepCandidate repo) (refs (state repo))).
Proof.
  intros Hr Hsome.
  assert (Hc : upstreamChoices repo = refs (state repo)).
  { unfold upstreamChoices. rewrite Hr. unfold named in Hsome.
    now rewrite Hsome. }
  split; [exact Hc |].
  unfold upstreamCandidates. now rewrite Hc.
Qed.

(** When no ref has the expected name, the synthetic remote head is put in
    front of the refs and is still there after the filter. *)
Lemma synthetic_candidate_survives (repo : MagitRepository) (r0 : Remote)
    (rest : list Remote) :
  remotes (state repo) = r0 :: rest ->
  find (named (expectedUpstreamName r0 repo)) (refs (state repo)) = None ->
  upstreamChoices repo = syntheticRef r0 repo :: refs (state repo)
  /\ ref_type (syntheticRef r0 repo) = RemoteHead
  /\ In (syntheticRef r0 repo) (upstreamCandidates repo)
  /\ In (refItem deps (syntheticRef r0 repo)) (upstreamItems deps repo).
Proof.
  intros Hr Hfind.
  destruct (upstreamCandidates_injected repo Hr Hfind) as [Hch Hc].
  repeat split; [exact Hch | |].
  - rewrite Hc. now left.
  - unfold upstreamItems. rewrite Hc. now left.
Qed.

(** With a remote configured, the list given to the chooser is empty
    exactly when a ref has the expected name, so that nothing is injected,
    and no ref passes the filter. *)
Lemma upstream_items_empty_iff (repo : MagitRepository) (r0 : Remote)
    (rest : list Remote) :
  remotes (state repo) = r0 :: rest ->
  upstreamItems deps repo = []
  <-> (find (named (expectedUpstreamName r0 repo)) (refs (state repo)) <> None
       /\ filter (keepCandidate repo) (refs (state repo)) = []).
Proof.
  intro Hr.
  destruct (find (named (expectedUpstreamName r0 repo)) (refs (state repo)))
    as [found |] eqn:Hfind.
  - destruct (upstreamCandidates_present repo Hr Hfind) as [_ Hc].
    unfold upstreamItems. rewrite Hc. split.
    + intro E. split; [discriminate |].
      apply (f_equal (@List.length QuickItem)) in E.
      rewrite length_map, (Permutation_length (sort_perm _ _)) in E.
      now apply length_zero_iff_nil.
    + intros [_ E]. now rewrite E.
  - destruct (upstreamCandidates_injected repo Hr Hfind) as [_ Hc].
    unfold upstreamItems. rewrite Hc. split.
    + discriminate.
    + intros [H _]. now elim H.
Qed.

(** An item carries the name of its ref as its label. *)
Lemma labelled_items (n : string) (l : list Ref) :
  List.length (filter (labelled n) (map (refItem deps) l))
  = List.length (filter (named n) l).
Proof.
  induction l as [| x tl IH]; simpl; [reflexivity |].
  unfold labelled at 1, named at 1; simpl.
  destruct (strictEq (ref_name x) (Some n)); simpl; now rewrite IH.
Qed.

(** Of the refs with a name other than the current branch, the filter drops
    the tags only. *)
Lemma kept_named (repo : MagitRepository) (h n : string) (l : list Ref) :
  headName repo = Some h ->
  n <> h ->
  List.length (filter (named n) (filter (keepCandidate repo) l))
  = List.length
      (filter (fun r => named n r && negb (RefType_eqb (ref_type r) Tag)) l).
Proof.
  intros Hhead Hne. induction l as [| x tl IH]; simpl; [reflexivity |].
  unfold keepCandidate at 1. rewrite Hhead.
  destruct (named n x) eqn:Hx.
  - pose proof Hx as Hn. apply named_name in Hn. rewrite Hn. simpl.
    apply String.eqb_neq in Hne. rewrite Hne. simpl.
    destruct (negb (RefType_eqb (ref_type x) Tag)); simpl;
      [rewrite Hx; simpl |]; now rewrite IH.
  - simpl.
    destruct (negb (RefType_eqb (ref_type x) Tag)
              && negb (strictEq (ref_name x) (Some h))); simpl;
      [rewrite Hx |]; exact IH.
Qed.

(** C6. On [feature] with first remote [origin]: when no ref is named
    [origin/feature] the synthetic candidate is put in front of the refs and
    its item is the first of the list given to the chooser; when a ref has
    that name nothing is injected, the candidates are the kept refs, and the
    list has as many items labelled [origin/feature] as the ref set has
    refs of that name that are not tags. *)
Theorem upstream_resolver_origin_feature (repo : MagitRepository)
    (r0 : Remote) (rest : list Remote) :
  remotes (state repo) = r0 :: rest ->
  remote_name r0 = "origin" ->
  headName repo = Some "feature" ->
  let synthetic :=
    mkRef RemoteHead (Some "origin/feature") None (Some "origin") in
  let kept :=
    sort byTypeDescending (filter (keepCandidate repo) (refs (state repo))) in
  (existsb (named "origin/feature") (refs (state repo)) = false ->
     upstreamChoices repo = synthetic :: refs (state repo)
     /\ upstreamCandidates repo = synthetic :: kept
     /\ hd_error (upstreamItems deps repo) = Some (refItem deps synthetic))
  /\
  (existsb (named "origin/feature") (refs (state repo)) = true ->
     upstreamChoices repo = refs (state repo)
     /\ upstreamCandidates repo = kept
     /\ List.length (filter (labelled "origin/feature")
                            (upstreamItems deps repo))
        = List.length
            (filter (fun r => named "origin/feature" r
                              && negb (RefType_eqb (ref_type r) Tag))
                    (refs (state repo)))).
Proof.
  intros Hr Hname Hhead synthetic kept.
  assert (Hexp : expectedUpstreamName r0 repo = "origin/feature")
    by (unfold expectedUpstreamName; now rewrite Hname, Hhead).
  assert (Hsyn : syntheticRef r0 repo = synthetic)
    by (unfold syntheticRef; now rewrite Hexp, Hname).
  split; intro Hex.
  - assert (Hfind : find (named (expectedUpstreamName r0 repo))
                         (refs (state repo)) = None).
    { rewrite Hexp.
      destruct (find (named "origin/feature") (refs (state repo)))
        as [found |] eqn:Hf; [| reflexivity].
      apply find_some in Hf as [Hin Hn].
      assert (existsb (named "origin/feature") (refs (state repo)) = true)
        by (apply existsb_exists; now exists found).
      congruence. }
    destruct (upstreamCandidates_injected repo Hr Hfind) as [Hch Hc].
    rewrite Hsyn in Hch, Hc.
    repeat split; [exact Hch | exact Hc |].
    unfold upstreamItems. now rewrite Hc.
  - apply existsb_exists in Hex as [r [Hin Hn]].
    destruct (find (named (expectedUpstreamName r0 repo))
                   (refs (state repo))) as [found |] eqn:Hfind.
    + destruct (upstreamCandidates_present repo Hr Hfind) as [Hch Hc].
      repeat split; [exact Hch | exact Hc |].
      unfold upstreamItems. rewrite Hc.
      rewrite labelled_items. unfold kept. rewrite sort_filter_length.
      apply (@kept_named repo "feature"); [exact Hhead | discriminate].
    + exfalso. rewrite Hexp in Hfind.
      pose proof (find_none _ _ Hfind r Hin) as Hc. congruence.
Qed.

End Resolver.

(** C3, the code at the input that breaks it. The remote [origin] is
    configured, the branch is [main], and the only ref is a tag named
    [origin/main]: the test by name finds the tag, whatever its type, so no
    candidate is injected, and the filter then drops the tag; the list given
    to the chooser is empty although a remote is configured. *)
Theorem upstream_items_empty_for_tag :
  remotes (state Sample.tagNamedLikeUpstream) = [Sample.origin]
  /\ headName Sample.tagNamedLikeUpstream = Some "main"
  /\ refs (state Sample.tagNamedLikeUpstream)
     = [mkRef Tag (Some "origin/main") (Some "4444444dddd") None]
  /\ upstreamChoices Sample.tagNamedLikeUpstream
     = refs (state Sample.tagNamedLikeUpstream)
  /\ upstreamItems Sample.deps Sample.tagNamedLikeUpstream = [].
Proof. repeat split. Qed.

Lemma upstream_resolver_origin_feature_witness :
  remotes (state Sample.onFeature) = [Sample.origin]
  /\ headName Sample.onFeature = Some "feature"
  /\ existsb (named "origin/feature") (refs (state Sample.onFeature)) = false
  /\ hd_error (upstreamItems Sample.deps Sample.onFeature)
     = Some (mkQuickItem (Some "origin/feature") (Some EmptyString)
                         (Some "origin/feature")).
Proof.
  destruct (@upstream_resolver_origin_feature Sample.deps Sample.onFeature
              Sample.origin [] eq_refl eq_refl eq_refl) as [Hnone _].
  destruct (Hnone eq_refl) as [_ [_ Hhd]].
  split; [reflexivity | split; [reflexivity | split; [reflexivity |]]].
  exact Hhd.
Defined.

(* ================================================================== *)
(** ** Configure, then retry *)

Lemma whenTruthy_nonempty (s : string) :
  s <> empty -> whenTruthy (Some s) = Some s.
Proof.
  intro H. unfold whenTruthy. apply String.eqb_neq in H. now rewrite H.
Qed.

Section Precedence.

Variables p q : Event -> Prop.

Lemma Precedes_nil : Precedes p q [].
Proof.
  intros pre e post E. destruct pre; discriminate E.
Qed.

(** Behind an event that satisfies [p] every event is preceded by it. *)
Lemma Precedes_found (e : Event) (t : list Event) :
  p e -> ~ q e -> Precedes p q (e :: t).
Proof.
  intros Hp Hq pre x post E Hx.
  destruct pre as [| y pre]; simpl in E; injection E as -> E.
  - contradiction.
  - exists y. split; [now left | exact Hp].
Qed.

Lemma Precedes_skip (e : Event) (t : list Event) :
  ~ q e -> Precedes p q t -> Precedes p q (e :: t).
Proof.
  intros Hq Ht pre x post E Hx.
  destruct pre as [| y pre]; simpl in E; injection E as -> E.
  - contradiction.
  - destruct (Ht pre x post E Hx) as [z [Hin Hz]].
    exists z. split; [now right | exact Hz].
Qed.

Lemma Precedes_app_clean (a b : list Event) :
  (forall x, In x a -> ~ q x) -> Precedes p q b -> Precedes p q (a ++ b).
Proof.
  intros Ha Hb. induction a as [| x a IH]; simpl; [exact Hb |].
  apply Precedes_skip.
  - apply Ha. now left.
  - apply IH. intros y Hy. apply Ha. now right.
Qed.

Lemma Precedes_app_found (a b : list Event) :
  (exists x, In x a /\ p x) -> Precedes p q a -> Precedes p q (a ++ b).
Proof.
  intros [x [Hin Hp]] Ha pre e post E He.
  apply app_eq_app in E as [l [[E1 E2] | [E1 E2]]].
  - destruct l as [| y l]; simpl in E2.
    + rewrite app_nil_r in E1. subst pre. now exists x.
    + injection E2 as Ey E2. subst y. exact (Ha pre e l E1 He).
  - subst pre. exists x. split; [apply in_or_app; now left | exact Hp].
Qed.

End Precedence.

Section ConfigureThenRetry.

Variable deps : Deps.
Variable host : Host.

Lemma returnGitRun_run (args : list string) (repo : MagitRepository)
    (t : list Event) :
  returnGitRun host args (mkWorld repo t)
  = (settles (gitRunOutcome host args),
     mkWorld repo (t ++ [EvGitRun args None])).
Proof.
  unfold returnGitRun, gitRun, bind, emit, modify, ret, settles; simpl.
  destruct (gitRunOutcome host args); reflexivity.
Qed.

Lemma pushToPushRemote_run (ms : MenuState) (repo : MagitRepository)
    (t : list Event) (v : TrackingRef) (ref : string) :
  headPushRemote repo = Some v ->
  tr_remote v <> empty ->
  headName repo = Some ref ->
  ref <> empty ->
  pushToPushRemote host ms (mkWorld repo t)
  = (settles (gitRunOutcome host
                ("push" :: switchesToArgs (switches ms) ++ [tr_remote v; ref])),
     mkWorld repo
       (t ++ [EvGitRun
                ("push" :: switchesToArgs (switches ms) ++ [tr_remote v; ref])
                None])).
Proof.
  intros Hv Hr Hn Hne.
  unfold pushToPushRemote, bind at 1, getRepository, bind at 1, getState, ret.
  cbn [repository].
  rewrite Hv, Hn. unfold remoteOf, option_map.
  rewrite !whenTruthy_nonempty by assumption.
  apply returnGitRun_run.
Qed.

Lemma pushUpstream_run (ms : MenuState) (repo : MagitRepository)
    (t : list Event) (v : TrackingRef) (ref : string) :
  headUpstreamRemote repo = Some v ->
  tr_remote v <> empty ->
  headName repo = Some ref ->
  ref <> empty ->
  pushUpstream host ms (mkWorld repo t)
  = (settles (gitRunOutcome host
                ("push" :: switchesToArgs (switches ms) ++ [tr_remote v; ref])),
     mkWorld repo
       (t ++ [EvGitRun
                ("push" :: switchesToArgs (switches ms) ++ [tr_remote v; ref])
                None])).
Proof.
  intros Hv Hr Hn Hne.
  unfold pushUpstream, bind at 1, getRepository, bind at 1, getState, ret.
  cbn [repository].
  rewrite Hv, Hn. unfold remoteOf, option_map.
  rewrite !whenTruthy_nonempty by assumption.
  apply returnGitRun_run.
Qed.

Lemma headName_defined (repo : MagitRepository) (b : string) :
  headName repo = Some b -> exists h, headOf repo = Some h.
Proof.
  unfold headName. destruct (headOf repo) as [h |]; [eauto | discriminate].
Qed.

Lemma assignPushRemote_run (v : TrackingRef) (repo : MagitRepository)
    (t : list Event) (h : MagitBranch) :
  headOf repo = Some h ->
  assignPushRemote v (mkWorld repo t)
  = (Returned tt, mkWorld (withPushRemote v repo) (t ++ [EvAssignPushRemote v])).
Proof.
  intro Hh.
  unfold assignPushRemote, assignHead, withPushRemote, bind at 1,
    getRepository, bind at 1, getState, ret.
  cbn [repository]. rewrite Hh. reflexivity.
Qed.

Lemma assignUpstreamRemote_run (v : TrackingRef) (repo : MagitRepository)
    (t : list Event) (h : MagitBranch) :
  headOf repo = Some h ->
  assignUpstreamRemote v (mkWorld repo t)
  = (Returned tt,
     mkWorld (withUpstreamRemote v repo) (t ++ [EvAssignUpstreamRemote v])).
Proof.
  intro Hh.
  unfold assignUpstreamRemote, assignHead, withUpstreamRemote, bind at 1,
    getRepository, bind at 1, getState, ret.
  cbn [repository]. rewrite Hh. reflexivity.
Qed.

Lemma withPushRemote_head (v : TrackingRef) (repo : MagitRepository)
    (h : MagitBranch) :
  headOf repo = Some h ->
  headPushRemote (withPushRemote v repo) = Some v
  /\ headName (withPushRemote v repo) = headName repo
  /\ headUpstream (withPushRemote v repo) = headUpstream repo
  /\ headUpstreamRemote (withPushRemote v repo) = headUpstreamRemote repo
  /\ state (withPushRemote v repo) = state repo.
Proof.
  intro Hh.
  unfold withPushRemote, headPushRemote, headName, headUpstream,
    headUpstreamRemote.
  rewrite Hh. repeat split.
Qed.

Lemma withUpstreamRemote_head (v : TrackingRef) (repo : MagitRepository)
    (h : MagitBranch) :
  headOf repo = Some h ->
  headUpstreamRemote (withUpstreamRemote v repo) = Some v
  /\ headName (withUpstreamRemote v repo) = headName repo
  /\ headUpstream (withUpstreamRemote v repo) = headUpstream repo
  /\ headPushRemote (withUpstreamRemote v repo) = headPushRemote repo
  /\ state (withUpstreamRemote v repo) = state repo.
Proof.
  intro Hh.
  unfold withUpstreamRemote, headPushRemote, headName, headUpstream,
    headUpstreamRemote.
  rewrite Hh. repeat split.
Qed.

Lemma setConfig_run (key value : string) (repo : MagitRepository)
    (t : list Event) :
  setConfig host key value (mkWorld repo t)
  = match setConfigFailure host key value with
    | None => (Returned tt,
               mkWorld repo
                 (t ++ [EvSetConfig key value; EvConfigWritten key value]))
    | Some e => (Thrown e,
                 mkWorld repo
                   (t ++ [EvSetConfig key value; EvConfigFailed key value]))
    end.
Proof.
  unfold setConfig, settleConfig, bind, emit, modify, throw; simpl.
  destruct (setConfigFailure host key value); simpl;
    now rewrite <- app_assoc.
Qed.

Lemma QuickMenuUtil_showMenu_run (items : list QuickItem)
    (repo : MagitRepository) (t : list Event) :
  QuickMenuUtil_showMenu host items (mkWorld repo t)
  = (match quickMenuAnswer host items with
     | Fulfilled v => Returned v
     | Rejected e => Thrown e
     end, mkWorld repo (t ++ [EvQuickMenu items])).
Proof.
  unfold QuickMenuUtil_showMenu, bind, emit, modify, await, ret, throw; simpl.
  destruct (quickMenuAnswer host items); reflexivity.
Qed.

(** [pushSetPushRemote] up to the answer of the chooser. *)
Lemma pushSetPushRemote_start (repo : MagitRepository) (ms : MenuState)
    (b : string) :
  headName repo = Some b ->
  b <> empty ->
  pushSetPushRemote host ms (startWorld repo)
  = match quickMenuAnswer host (remoteItems repo) with
    | Fulfilled chosen =>
        match whenTruthy chosen with
        | Some c =>
            (setConfig host ("branch." ++ b ++ ".pushRemote")%string c ;;
             assignPushRemote (mkTracking b c) ;;
             pushToPushRemote host ms)
              (mkWorld repo [EvQuickMenu (remoteItems repo)])
        | None =>
            (Returned None, mkWorld repo [EvQuickMenu (remoteItems repo)])
        end
    | Rejected e =>
        (Thrown e, mkWorld repo [EvQuickMenu (remoteItems repo)])
    end.
Proof.
  intros Hb Hbne.
  unfold pushSetPushRemote, startWorld.
  unfold bind at 1, getRepository at 1, bind at 1, getState, ret at 1.
  cbn [repository].
  unfold bind at 1. rewrite QuickMenuUtil_showMenu_run. cbn [app].
  destruct (quickMenuAnswer host (remoteItems repo)) as [chosen | e];
    [| reflexivity].
  unfold bind at 1, getRepository at 1, bind at 1, getState, ret at 1.
  cbn [repository]. rewrite Hb, (whenTruthy_nonempty Hbne).
  destruct (whenTruthy chosen); reflexivity.
Qed.

(** C4. On branch [b], when the user picks the remote [r] and the store
    accepts the write: the chooser is shown, [branch.b.pushRemote = r] is
    written and the write completes, then [HEAD.pushRemote] becomes
    [{ name: b, remote: r }], then [push <enabled long forms> r b] is run, and
    the action settles as that process does.  When the write fails the
    failure is raised and nothing is changed or run.  When the chooser is
    dismissed nothing happens beyond the chooser: no write, no change, no
    process. *)
Theorem pushSetPushRemote_configure_then_retry (repo : MagitRepository)
    (ms : MenuState) (b r : string) :
  headName repo = Some b ->
  b <> empty ->
  r <> empty ->
  let key := ("branch." ++ b ++ ".pushRemote")%string in
  let args := "push" :: switchesToArgs (switches ms) ++ [r; b] in
  let menu := EvQuickMenu (remoteItems repo) in
  let configured := withPushRemote (mkTracking b r) repo in
  headPushRemote configured = Some (mkTracking b r)
  /\ (quickMenuAnswer host (remoteItems repo) = Fulfilled (Some r) ->
      setConfigFailure host key r = None ->
      pushSetPushRemote host ms (startWorld repo)
      = (settles (gitRunOutcome host args),
         mkWorld configured
           [ menu; EvSetConfig key r; EvConfigWritten key r;
             EvAssignPushRemote (mkTracking b r); EvGitRun args None ]))
  /\ (forall e,
        quickMenuAnswer host (remoteItems repo) = Fulfilled (Some r) ->
        setConfigFailure host key r = Some e ->
        pushSetPushRemote host ms (startWorld repo)
        = (Thrown e,
           mkWorld repo [ menu; EvSetConfig key r; EvConfigFailed key r ]))
  /\ (quickMenuAnswer host (remoteItems repo) = Fulfilled None ->
      pushSetPushRemote host ms (startWorld repo)
      = (Returned None, mkWorld repo [ menu ])).
Proof.
  intros Hb Hbne Hrne key args menu configured.
  destruct (headName_defined repo Hb) as [h Hh].
  destruct (withPushRemote_head (mkTracking b r) repo Hh)
    as [Hpr [Hname _]].
  pose proof (pushSetPushRemote_start repo ms Hb Hbne) as Hrun.
  split; [exact Hpr |].
  split; [| split].
  - intros Hans Hok. rewrite Hrun, Hans, (whenTruthy_nonempty Hrne).
    unfold bind at 1.
    rewrite setConfig_run. fold key. rewrite Hok.
    unfold bind at 1. rewrite (assignPushRemote_run _ _ _ Hh).
    fold configured.
    rewrite (@pushToPushRemote_run ms configured _ (mkTracking b r) b);
      [reflexivity | exact Hpr | exact Hrne | | exact Hbne].
    unfold configured. now rewrite Hname.
  - intros e Hans Hfail. rewrite Hrun, Hans, (whenTruthy_nonempty Hrne).
    unfold bind at 1.
    rewrite setConfig_run. fold key. rewrite Hfail. reflexivity.
  - intros Hans. rewrite Hrun, Hans. reflexivity.
Qed.

Lemma setConfigBoth_run (k1 v1 k2 v2 : string) (repo : MagitRepository)
    (t : list Event) :
  setConfigBoth host k1 v1 k2 v2 (mkWorld repo t)
  = let started := t ++ [EvSetConfig k1 v1; EvSetConfig k2 v2] in
    if secondSettlesFirst host
    then
      match setConfigFailure host k2 v2, setConfigFailure host k1 v1 with
      | Some e, _ =>
          (Thrown e, mkWorld repo (started ++ [EvConfigFailed k2 v2]))
      | None, Some e =>
          (Thrown e,
           mkWorld repo
             (started ++ [EvConfigWritten k2 v2; EvConfigFailed k1 v1]))
      | None, None =>
          (Returned tt,
           mkWorld repo
             (started ++ [EvConfigWritten k2 v2; EvConfigWritten k1 v1]))
      end
    else
      match setConfigFailure host k1 v1, setConfigFailure host k2 v2 with
      | Some e, _ =>
          (Thrown e, mkWorld repo (started ++ [EvConfigFailed k1 v1]))
      | None, Some e =>
          (Thrown e,
           mkWorld repo
             (started ++ [EvConfigWritten k1 v1; EvConfigFailed k2 v2]))
      | None, None =>
          (Returned tt,
           mkWorld repo
             (started ++ [EvConfigWritten k1 v1; EvConfigWritten k2 v2]))
      end.
Proof.
  unfold setConfigBoth, settleConfig, bind, emit, modify, throw; simpl.
  destruct (secondSettlesFirst host),
    (setConfigFailure host k1 v1), (setConfigFailure host k2 v2); simpl;
    now rewrite <- !app_assoc.
Qed.

(** [pushSetUpstream] up to the two writes. *)
Lemma pushSetUpstream_start (repo : MagitRepository) (ms : MenuState)
    (cur chosen remote name : string) :
  headName repo = Some cur ->
  cur <> empty ->
  quickMenuAnswer host (upstreamItems deps repo) = Fulfilled (Some chosen) ->
  chosen <> empty ->
  remoteBranchFullNameToSegments deps chosen = (Some remote, Some name) ->
  remote <> empty ->
  name <> empty ->
  pushSetUpstream deps host ms (startWorld repo)
  = (setConfigBoth host
       ("branch." ++ cur ++ ".merge")%string ("refs/heads/" ++ name)%string
       ("branch." ++ cur ++ ".remote")%string remote ;;
     assignUpstreamRemote (mkTracking name remote) ;;
     pushUpstream host ms)
      (mkWorld repo [EvQuickMenu (upstreamItems deps repo)]).
Proof.
  intros Hcur Hcne Hans Hchne Hsplit Hrne Hnne.
  unfold pushSetUpstream, startWorld.
  unfold bind at 1, getRepository at 1, bind at 1, getState, ret at 1.
  cbn [repository].
  unfold bind at 1, tryCatch. rewrite QuickMenuUtil_showMenu_run, Hans.
  cbn [app].
  unfold bind at 1, getRepository at 1, bind at 1, getState, ret at 1.
  cbn [repository].
  rewrite Hcur, (whenTruthy_nonempty Hcne), (whenTruthy_nonempty Hchne).
  rewrite Hsplit, (whenTruthy_nonempty Hrne), (whenTruthy_nonempty Hnne).
  reflexivity.
Qed.

Ltac not_changesOrPushes :=
  let H := fresh in
  intro H; destruct H as [[? H] | [? [? H]]]; discriminate H.

Ltac precedes :=
  repeat first
    [ apply Precedes_nil
    | apply Precedes_found; [reflexivity | not_changesOrPushes]
    | apply Precedes_skip; [not_changesOrPushes |] ].

(** C5. On branch [cur], when the user picks a candidate that splits into
    [remote] and [name]: both writes, [branch.cur.merge = refs/heads/name]
    and [branch.cur.remote = remote], are started; whatever the store
    answers, a change of [HEAD.upstreamRemote] or a process start is
    preceded by the completion of each of the two writes; and when the store
    accepts both, they complete (in either order), then
    [HEAD.upstreamRemote] becomes [{ name, remote }], then
    [push <enabled long forms> remote cur] is run. *)
Theorem pushSetUpstream_configure_then_retry (repo : MagitRepository)
    (ms : MenuState) (cur chosen remote name : string) :
  headName repo = Some cur ->
  cur <> empty ->
  quickMenuAnswer host (upstreamItems deps repo) = Fulfilled (Some chosen) ->
  chosen <> empty ->
  remoteBranchFullNameToSegments deps chosen = (Some remote, Some name) ->
  remote <> empty ->
  name <> empty ->
  let merge := ("branch." ++ cur ++ ".merge")%string in
  let mergeRef := ("refs/heads/" ++ name)%string in
  let remoteKey := ("branch." ++ cur ++ ".remote")%string in
  let args := "push" :: switchesToArgs (switches ms) ++ [remote; cur] in
  let started :=
    [ EvQuickMenu (upstreamItems deps repo);
      EvSetConfig merge mergeRef; EvSetConfig remoteKey remote ] in
  let final := pushSetUpstream deps host ms (startWorld repo) in
  (exists rest, trace (snd final) = started ++ rest)
  /\ Precedes (eq (EvConfigWritten merge mergeRef)) changesOrPushes
              (trace (snd final))
  /\ Precedes (eq (EvConfigWritten remoteKey remote)) changesOrPushes
              (trace (snd final))
  /\ (setConfigFailure host merge mergeRef = None ->
      setConfigFailure host remoteKey remote = None ->
      final
      = (settles (gitRunOutcome host args),
         mkWorld (withUpstreamRemote (mkTracking name remote) repo)
           (started
            ++ (if secondSettlesFirst host
                then [ EvConfigWritten remoteKey remote;
                       EvConfigWritten merge mergeRef ]
                else [ EvConfigWritten merge mergeRef;
                       EvConfigWritten remoteKey remote ])
            ++ [ EvAssignUpstreamRemote (mkTracking name remote);
                 EvGitRun args None ]))).
Proof.
  intros Hcur Hcne Hans Hchne Hsplit Hrne Hnne
         merge mergeRef remoteKey args started final.
  destruct (headName_defined repo Hcur) as [h Hh].
  destruct (withUpstreamRemote_head (mkTracking name remote) repo Hh)
    as [Hur [Hname _]].
  assert (Hpush : forall t,
    pushUpstream host ms
      (mkWorld (withUpstreamRemote (mkTracking name remote) repo) t)
    = (settles (gitRunOutcome host args),
       mkWorld (withUpstreamRemote (mkTracking name remote) repo)
         (t ++ [EvGitRun args None]))).
  { intro t.
    apply (@pushUpstream_run ms _ t (mkTracking name remote) cur);
      [exact Hur | exact Hrne | now rewrite Hname | exact Hcne]. }
  assert (Hfinal : final
    = (setConfigBoth host merge mergeRef remoteKey remote ;;
       assignUpstreamRemote (mkTracking name remote) ;;
       pushUpstream host ms)
        (mkWorld repo [EvQuickMenu (upstreamItems deps repo)]))
    by (apply (pushSetUpstream_start repo ms Hcur Hcne Hans Hchne Hsplit
                 Hrne Hnne)).
  unfold bind at 1 in Hfinal. rewrite setConfigBoth_run in Hfinal.
  cbv zeta in Hfinal. cbn [app] in Hfinal.
  destruct (secondSettlesFirst host),
    (setConfigFailure host merge mergeRef) as [e1 |],
    (setConfigFailure host remoteKey remote) as [e2 |];
    try (unfold bind at 1 in Hfinal;
         rewrite (assignUpstreamRemote_run _ _ _ Hh), Hpush in Hfinal;
         cbn [app] in Hfinal);
    rewrite Hfinal; cbn [snd trace];
    (split; [eexists; unfold started; cbn [app]; reflexivity |]);
    (split; [precedes |]); (split; [precedes |]);
    intros H1 H2; try discriminate H1; try discriminate H2; reflexivity.
Qed.

End ConfigureThenRetry.

Lemma pushSetPushRemote_configure_then_retry_witness :
  headName Sample.fresh = Some "main"
  /\ pushSetPushRemote (Sample.host (Some "origin") Sample.succeeded [])
       (mkMenuState Sample.someSwitches) (startWorld Sample.fresh)
     = (Returned (Some (mkOutput "done" EmptyString)),
        mkWorld (withPushRemote (mkTracking "main" "origin") Sample.fresh)
          [ EvQuickMenu (remoteItems Sample.fresh);
            EvSetConfig "branch.main.pushRemote" "origin";
            EvConfigWritten "branch.main.pushRemote" "origin";
            EvAssignPushRemote (mkTracking "main" "origin");
            EvGitRun ["push"; "--force-with-lease"; "--dry-run";
                      "origin"; "main"] None ]).
Proof.
  assert (Hb : "main" <> empty) by discriminate.
  assert (Hr : "origin" <> empty) by discriminate.
  destruct (@pushSetPushRemote_configure_then_retry
              (Sample.host (Some "origin") Sample.succeeded [])
              Sample.fresh (mkMenuState Sample.someSwitches)
              "main" "origin" eq_refl Hb Hr) as [_ [Hchosen _]].
  split; [reflexivity | exact (Hchosen eq_refl eq_refl)].
Defined.

Lemma pushSetUpstream_configure_then_retry_witness :
  headName Sample.fresh = Some "main"
  /\ remoteBranchFullNameToSegments Sample.deps "origin/dev"
     = (Some "origin", Some "dev")
  /\ pushSetUpstream Sample.deps
       (Sample.host (Some "origin/dev") Sample.succeeded [])
       (mkMenuState Sample.someSwitches) (startWorld Sample.fresh)
     = (Returned (Some (mkOutput "done" EmptyString)),
        mkWorld (withUpstreamRemote (mkTracking "dev" "origin") Sample.fresh)
          [ EvQuickMenu (upstreamItems Sample.deps Sample.fresh);
            EvSetConfig "branch.main.merge" "refs/heads/dev";
            EvSetConfig "branch.main.remote" "origin";
            EvConfigWritten "branch.main.merge" "refs/heads/dev";
            EvConfigWritten "branch.main.remote" "origin";
            EvAssignUpstreamRemote (mkTracking "dev" "origin");
            EvGitRun ["push"; "--force-with-lease"; "--dry-run";
                      "origin"; "main"] None ]).
Proof.
  assert (Hc : "main" <> empty) by discriminate.
  assert (Hch : "origin/dev" <> empty) by discriminate.
  assert (Hr : "origin" <> empty) by discriminate.
  assert (Hn : "dev" <> empty) by discriminate.
  destruct (@pushSetUpstream_configure_then_retry Sample.deps
              (Sample.host (Some "origin/dev") Sample.succeeded [])
              Sample.fresh (mkMenuState Sample.someSwitches)
              "main" "origin/dev" "origin" "dev"
              eq_refl Hc eq_refl Hch eq_refl Hr Hn) as [_ [_ [_ Hok]]].
  split; [reflexivity | split; [reflexivity |]].
  exact (Hok eq_refl eq_refl).
Defined.

(* ================================================================== *)
(** ** The commit orchestrator *)

Lemma closeCount_app (a b : list Event) :
  closeCount (a ++ b) = closeCount a + closeCount b.
Proof.
  unfold closeCount. now rewrite filter_app, length_app.
Qed.

Lemma closeCount_none (l : list Event) :
  (forall x, In x l -> isClose x = false) -> closeCount l = 0.
Proof.
  unfold closeCount. induction l as [| x l IH]; intro H; [reflexivity |].
  simpl. rewrite (H x (or_introl eq_refl)). apply IH.
  intros y Hy. apply H. now right.
Qed.

Lemma previewCloses_app (doc : Uri) (a b : list Event) :
  match b with EvExecuteCommand _ :: _ => False | _ => True end ->
  previewCloses doc (a ++ b) = previewCloses doc a + previewCloses doc b.
Proof.
  intro Hb. induction a as [| e1 a IH]; [reflexivity |].
  destruct a as [| e2 a].
  - cbn [app previewCloses]. destruct b as [| e2 b]; [reflexivity |].
    assert (E : closesPreview doc e1 e2 = false).
    { destruct e1 as [| | | | | | | | | | | | | | | | | d c p];
        try reflexivity.
      destruct p; [reflexivity |].
      destruct e2; try reflexivity. contradiction. }
    now rewrite E.
  - change (previewCloses doc ((e1 :: e2 :: a) ++ b))
      with ((if closesPreview doc e1 e2 then 1 else 0)
            + previewCloses doc ((e2 :: a) ++ b)).
    rewrite IH.
    change (previewCloses doc (e1 :: e2 :: a))
      with ((if closesPreview doc e1 e2 then 1 else 0)
            + previewCloses doc (e2 :: a)).
    lia.
Qed.

Lemma previewCloses_none (doc : Uri) (l : list Event) :
  (forall x, In x l -> isCleanup x = false) -> previewCloses doc l = 0.
Proof.
  induction l as [| e1 l IH]; intro H; [reflexivity |].
  cbn [previewCloses]. rewrite IH by (intros y Hy; apply H; now right).
  destruct l as [| e2 l]; [reflexivity |].
  pose proof (H e1 (or_introl eq_refl)) as H1.
  destruct e1; try reflexivity. discriminate H1.
Qed.

Section Orchestrator.

Variable deps : Deps.
Variable host : Host.

(** One turn of the loop of the clean-up. *)
Lemma closePreview_run (stagedEditor visibleEditor : TextEditor) (f : Frame) :
  closePreview deps host stagedEditor visibleEditor f
  = if (uri (document visibleEditor) =? uri (document stagedEditor))%nat
    then
      let column := oppositeActiveViewColumn deps (frame_trace f) in
      let shown :=
        frame_trace f
        ++ [EvShowTextDocument (uri (document stagedEditor)) column false] in
      match showTextDocumentFailure host (frame_trace f) with
      | Some e =>
          (Thrown e, mkFrame shown (stagedEditorTask f) (instructionStatus f))
      | None =>
          match closeActiveEditorFailure host shown with
          | Some e =>
              (Thrown e,
               mkFrame (shown ++ [EvExecuteCommand closeActiveEditor])
                       (stagedEditorTask f) (instructionStatus f))
          | None =>
              (Returned tt,
               mkFrame
                 (shown
                  ++ [ EvExecuteCommand closeActiveEditor;
                       EvExecuteCommand
                         ("workbench.action.navigate"
                            ++ (if (column =? ViewColumn_One)%Z
                                then "Right" else "Left"))%string ])
                 (stagedEditorTask f) (instructionStatus f))
          end
      end
    else (Returned tt, f).
Proof.
  unfold closePreview.
  destruct (uri (document visibleEditor) =? uri (document stagedEditor))%nat;
    [| reflexivity].
  unfold showTextDocument, awaitCloseActiveEditor.
  unfold bind, getState, emit, modify, ret, throw.
  cbn [trace_of with_trace Frame_Traced frame_trace stagedEditorTask
       instructionStatus].
  cbv zeta.
  destruct (showTextDocumentFailure host (frame_trace f)); [reflexivity |].
  cbn [trace_of with_trace Frame_Traced frame_trace stagedEditorTask
       instructionStatus].
  destruct (closeActiveEditorFailure host _); [reflexivity |].
  cbn [trace_of with_trace Frame_Traced frame_trace stagedEditorTask
       instructionStatus].
  now rewrite <- app_assoc.
Qed.

(** The loop of the clean-up: it adds events of the [finally] block, the
    first of which is no command; and when it completes it has closed the
    preview once for each visible editor that shows its document, and
    closed nothing else. *)
Lemma forOf_closePreview (stagedEditor : TextEditor)
    (visible : list TextEditor) (f : Frame) :
  exists r new,
    forOf visible (closePreview deps host stagedEditor) f
    = (r, mkFrame (frame_trace f ++ new)
                  (stagedEditorTask f) (instructionStatus f))
    /\ (forall e, In e new -> isCleanup e = true)
    /\ match new with EvExecuteCommand _ :: _ => False | _ => True end
    /\ (r = Returned tt ->
        previewCloses (uri (document stagedEditor)) new
        = List.length (boundTo stagedEditor visible)
        /\ closeCount new = List.length (boundTo stagedEditor visible)).
Proof.
  revert f. induction visible as [| v rest IH]; intro f.
  - exists (Returned tt), []. cbn [forOf]. unfold ret. rewrite app_nil_r.
    split; [now destruct f |]. split; [intros e [] |].
    split; [exact I |]. intros _. split; reflexivity.
  - cbn [forOf]. unfold bind at 1. rewrite closePreview_run.
    cbn [boundTo filter].
    destruct (uri (document v) =? uri (document stagedEditor))%nat eqn:Hv.
    + cbv zeta.
      set (column := oppositeActiveViewColumn deps (frame_trace f)).
      set (show :=
             EvShowTextDocument (uri (document stagedEditor)) column false).
      destruct (showTextDocumentFailure host (frame_trace f)) as [e |].
      { exists (Thrown e), [show].
        split; [reflexivity |]. split.
        - intros x [<- | []]. reflexivity.
        - split; [exact I | discriminate]. }
      destruct (closeActiveEditorFailure host (frame_trace f ++ [show]))
        as [e |].
      { exists (Thrown e), [show; EvExecuteCommand closeActiveEditor].
        split; [now rewrite <- app_assoc |]. split.
        - intros x [<- | [<- | []]]; reflexivity.
        - split; [exact I | discriminate]. }
      set (turn :=
             [ show; EvExecuteCommand closeActiveEditor;
               EvExecuteCommand
                 ("workbench.action.navigate"
                    ++ (if (column =? ViewColumn_One)%Z
                        then "Right" else "Left"))%string ]).
      destruct (IH (mkFrame
                      ((frame_trace f ++ [show])
                       ++ [ EvExecuteCommand closeActiveEditor;
                            EvExecuteCommand
                              ("workbench.action.navigate"
                                 ++ (if (column =? ViewColumn_One)%Z
                                     then "Right" else "Left"))%string ])
                      (stagedEditorTask f) (instructionStatus f)))
        as [r [new [E [Hc [Hhd Hok]]]]].
      exists r, (turn ++ new).
      split.
      { rewrite E. cbn [frame_trace stagedEditorTask instructionStatus].
        unfold turn. now rewrite <- !app_assoc. }
      split.
      { intros x Hx. apply in_app_or in Hx as [Hx | Hx]; [| now apply Hc].
        unfold turn in Hx.
        repeat (destruct Hx as [Hx | Hx]; [subst x; reflexivity |]).
        contradiction. }
      split; [exact I |].
      intro Hr. destruct (Hok Hr) as [Hp Hn].
      split.
      * rewrite previewCloses_app by exact Hhd. rewrite Hp.
        unfold turn, show. cbn [previewCloses closesPreview].
        rewrite Nat.eqb_refl, String.eqb_refl. reflexivity.
      * rewrite closeCount_app, Hn. reflexivity.
    + destruct (IH f) as [r [new [E H]]]. exists r, new.
      split; [exact E | exact H].
Qed.

Lemma commitFinally_run (f : Frame) :
  commitFinally deps host f
  = match stagedEditorTask f with
    | Some (Fulfilled stagedEditor) =>
        forOf (visibleTextEditors host) (closePreview deps host stagedEditor)
          (mkFrame (frame_trace f ++ [EvPreviewSettled true])
                   (stagedEditorTask f) (instructionStatus f))
    | Some (Rejected e) =>
        (Thrown e,
         mkFrame (frame_trace f ++ [EvPreviewSettled false])
                 (stagedEditorTask f) (instructionStatus f))
    | None => (Returned tt, f)
    end.
Proof.
  unfold commitFinally.
  unfold bind at 1, getState.
  destruct (stagedEditorTask f) as [[stagedEditor | e] |] eqn:Htask.
  - unfold bind at 1, bind at 1, awaitPreview, bind at 1, emit, modify, ret.
    cbn [trace_of with_trace Frame_Traced].
    now rewrite Htask.
  - unfold bind, awaitPreview, emit, modify, throw. simpl. now rewrite Htask.
  - reflexivity.
Qed.

(** What the [finally] block adds to a frame, by the task of the preview. *)
Lemma commitFinally_shape (f : Frame) :
  exists r cleanup,
    commitFinally deps host f
    = (r, mkFrame (frame_trace f ++ cleanup)
                  (stagedEditorTask f) (instructionStatus f))
    /\ (forall e, In e cleanup -> isCleanup e = true)
    /\ match stagedEditorTask f with
       | Some (Fulfilled stagedEditor) =>
           exists new,
             cleanup = EvPreviewSettled true :: new
             /\ (r = Returned tt ->
                 previewCloses (uri (document stagedEditor)) new
                 = List.length
                     (boundTo stagedEditor (visibleTextEditors host))
                 /\ closeCount new
                    = List.length
                        (boundTo stagedEditor (visibleTextEditors host)))
       | Some (Rejected e) => cleanup = [EvPreviewSettled false] /\ r = Thrown e
       | None => cleanup = [] /\ r = Returned tt
       end.
Proof.
  rewrite commitFinally_run.
  destruct (stagedEditorTask f) as [[stagedEditor | e] |] eqn:Htask.
  - destruct (forOf_closePreview stagedEditor (visibleTextEditors host)
                (mkFrame (frame_trace f ++ [EvPreviewSettled true])
                         (Some (Fulfilled stagedEditor))
                         (instructionStatus f)))
      as [r [new [E [Hc [_ Hok]]]]].
    exists r, (EvPreviewSettled true :: new).
    rewrite E. cbn [frame_trace stagedEditorTask instructionStatus].
    split; [now rewrite <- app_assoc |]. split.
    + intros x [<- | Hx]; [reflexivity | now apply Hc].
    + exists new. split; [reflexivity | exact Hok].
  - exists (Thrown e), [EvPreviewSettled false].
    split; [reflexivity |]. split; [| now split].
    intros x [<- | []]. reflexivity.
  - exists (Returned tt), []. rewrite app_nil_r.
    split; [destruct f; cbn in *; now subst |].
    split; [intros x [] | now split].
Qed.

(** The effects of the [try] and [catch] blocks, in order. *)
Lemma body_run (args : list string) (o : CommitEditorOptions) :
  tryCatch (commitTry deps host args o) (commitCatch deps o) startFrame
  = (match gitRunOutcome host args with
     | Fulfilled _ => Returned tt
     | Rejected e =>
         if truthyBool (propagateErrors o) then Thrown e else Returned tt
     end,
     mkFrame
       ([EvStatusBarMessage instructionText None]
        ++ (if truthyBool (showStagedChanges o)
            then [EvShowDiffSection Staged true] else [])
        ++ [EvGitRun args (Some (editorEnv host o))]
        ++ (if truthyBool (updatePostCommitTask o)
            then [EvDelay 100; EvStatusAndUpdate] else [])
        ++ match gitRunOutcome host args with
           | Fulfilled out =>
               [ EvProcessSettled true; EvDispose instructionText;
                 EvStatusBarMessage
                   ("Git finished: " ++ collapseLines deps (stdout out))%string
                   (Some (StatusMessageDisplayTimeout deps)) ]
           | Rejected _ =>
               [ EvProcessSettled false; EvDispose instructionText;
                 EvStatusBarMessage canceledText
                   (Some (StatusMessageDisplayTimeout deps)) ]
           end)
       (if truthyBool (showStagedChanges o)
        then Some (previewOutcome host) else None)
       (Some instructionText)).
Proof.
  unfold tryCatch, commitTry, commitCatch, editorEnv.
  unfold bind, setStatusBarMessage, showDiffSection, gitRun, awaitProcess,
    dispose, bind, emit, modify, getState, ret, throw, startFrame.
  cbn [trace_of with_trace Frame_Traced frame_trace stagedEditorTask
       instructionStatus app].
  destruct (truthyBool (showStagedChanges o)),
    (truthyBool (updatePostCommitTask o)),
    (gitRunOutcome host args) as [out | e];
    cbn [trace_of with_trace Frame_Traced frame_trace stagedEditorTask
         instructionStatus app];
    try reflexivity;
    destruct (truthyBool (propagateErrors o)); reflexivity.
Qed.

(** An invocation is its [try] and [catch] blocks followed by the
    [finally] block, whose failure replaces their outcome. *)
Lemma runCommitLikeCommand_run (args : list string)
    (options : option CommitEditorOptions) :
  runCommitLikeCommand deps host args options startFrame
  = match commitFinally deps host (afterBody deps host args options) with
    | (Returned _, f) =>
        (fst (tryCatch (commitTry deps host args (inForce options))
                       (commitCatch deps (inForce options)) startFrame),
         f)
    | (Thrown e, f) => (Thrown e, f)
    end.
Proof.
  unfold runCommitLikeCommand, tryFinally, afterBody, inForce. cbv zeta.
  destruct (tryCatch (commitTry deps host args (nullish options defaultOptions))
              (commitCatch deps (nullish options defaultOptions)) startFrame)
    as [r f].
  cbn [fst snd].
  destruct (commitFinally deps host f) as [[u | e] f']; reflexivity.
Qed.

Lemma afterBody_task (args : list string)
    (options : option CommitEditorOptions) :
  stagedEditorTask (afterBody deps host args options)
  = if truthyBool (showStagedChanges (inForce options))
    then Some (previewOutcome host) else None.
Proof.
  unfold afterBody. fold (inForce options). now rewrite body_run.
Qed.

(** The trace and the outcome of an invocation, by the task of the
    preview. *)
Lemma run_shape (args : list string) (options : option CommitEditorOptions) :
  exists cleanup,
    frame_trace
      (snd (runCommitLikeCommand deps host args options startFrame))
    = frame_trace (afterBody deps host args options) ++ cleanup
    /\ (forall e, In e cleanup -> isCleanup e = true)
    /\ (cleanupCompletes deps host args options ->
        fst (runCommitLikeCommand deps host args options startFrame)
        = fst (tryCatch (commitTry deps host args (inForce options))
                        (commitCatch deps (inForce options)) startFrame))
    /\ if truthyBool (showStagedChanges (inForce options))
       then
         match previewOutcome host with
         | Fulfilled stagedEditor =>
             exists new,
               cleanup = EvPreviewSettled true :: new
               /\ (cleanupCompletes deps host args options ->
                   previewCloses (uri (document stagedEditor)) new
                   = List.length
                       (boundTo stagedEditor (visibleTextEditors host))
                   /\ closeCount new
                      = List.length
                          (boundTo stagedEditor (visibleTextEditors host)))
         | Rejected e =>
             cleanup = [EvPreviewSettled false]
             /\ fst (runCommitLikeCommand deps host args options startFrame)
                = Thrown e
         end
       else
         cleanup = []
         /\ fst (runCommitLikeCommand deps host args options startFrame)
            = fst (tryCatch (commitTry deps host args (inForce options))
                            (commitCatch deps (inForce options)) startFrame).
Proof.
  rewrite runCommitLikeCommand_run. unfold cleanupCompletes.
  destruct (commitFinally_shape (afterBody deps host args options))
    as [r [cleanup [E [Hc Htask]]]].
  rewrite E, afterBody_task in *. exists cleanup.
  assert (Htrace :
    frame_trace
      (snd (let (r0, f) :=
              (r, mkFrame (frame_trace (afterBody deps host args options)
                           ++ cleanup)
                          (if truthyBool (showStagedChanges (inForce options))
                           then Some (previewOutcome host) else None)
                          (instructionStatus
                             (afterBody deps host args options))) in
            match r0 with
            | Returned _ =>
                (fst (tryCatch
                        (commitTry deps host args (inForce options))
                        (commitCatch deps (inForce options)) startFrame), f)
            | Thrown e => (Thrown e, f)
            end))
    = frame_trace (afterBody deps host args options) ++ cleanup)
    by (destruct r; reflexivity).
  split; [exact Htrace |]. split; [exact Hc |].
  cbn [fst] in *.
  split; [intros ->; reflexivity |].
  destruct (truthyBool (showStagedChanges (inForce options))).
  - destruct (previewOutcome host) as [stagedEditor | e].
    + destruct Htask as [new [-> Hok]]. exists new. split; [reflexivity |].
      exact Hok.
    + destruct Htask as [-> ->]. split; reflexivity.
  - destruct Htask as [-> ->]. split; reflexivity.
Qed.

(** The loop completes when its two awaited calls resolve. *)
Lemma forOf_closePreview_resolves (stagedEditor : TextEditor)
    (visible : list TextEditor) (f : Frame) :
  (forall t, showTextDocumentFailure host t = None) ->
  (forall t, closeActiveEditorFailure host t = None) ->
  fst (forOf visible (closePreview deps host stagedEditor) f) = Returned tt.
Proof.
  intros Hshow Hclose. revert f.
  induction visible as [| v rest IH]; intro f; [reflexivity |].
  cbn [forOf]. unfold bind at 1. rewrite closePreview_run.
  destruct (uri (document v) =? uri (document stagedEditor))%nat;
    [| apply IH].
  cbv zeta. rewrite Hshow, Hclose. apply IH.
Qed.

(** The host-level reading of a clean-up that completes: the preview, if it
    was started, opens, and the two awaited calls of the loop resolve. *)
Lemma cleanup_completes_when (args : list string)
    (options : option CommitEditorOptions) :
  (truthyBool (showStagedChanges (inForce options)) = true ->
   exists stagedEditor, previewOutcome host = Fulfilled stagedEditor) ->
  (forall t, showTextDocumentFailure host t = None) ->
  (forall t, closeActiveEditorFailure host t = None) ->
  cleanupCompletes deps host args options.
Proof.
  intros Hpreview Hshow Hclose. unfold cleanupCompletes.
  rewrite commitFinally_run, afterBody_task.
  destruct (truthyBool (showStagedChanges (inForce options)));
    [| reflexivity].
  destruct (Hpreview eq_refl) as [stagedEditor ->].
  now apply forOf_closePreview_resolves.
Qed.

Lemma truthyBool_true (b : option bool) :
  truthyBool b = true <-> b = Some true.
Proof.
  destruct b as [[|] |]; simpl; split; congruence.
Qed.

Ltac not_showsCanceled :=
  let H := fresh in intro H; destruct H as [? H]; discriminate H.

(** C1, as amended. When the git process fails and the [finally] block
    completes (the preview, if it was started, opens, and showing its
    document and closing the active editor do not fail): the call returns
    normally when [propagateErrors] is false or unset and raises the
    failure of the process when it is true; once the failure is observed
    the instructional message is disposed and then the message that the
    commit was canceled is shown, and no such message is shown before the
    disposal. *)
Theorem commit_failure_reported (args : list string)
    (options : option CommitEditorOptions) (e : Error) :
  gitRunOutcome host args = Rejected e ->
  cleanupCompletes deps host args options ->
  let final := runCommitLikeCommand deps host args options startFrame in
  fst final
  = (if truthyBool (propagateErrors (inForce options))
     then Thrown e else Returned tt)
  /\ (exists pre post,
        frame_trace (snd final)
        = pre
          ++ [ EvProcessSettled false; EvDispose instructionText;
               EvStatusBarMessage canceledText
                 (Some (StatusMessageDisplayTimeout deps)) ]
          ++ post)
  /\ Precedes (eq (EvDispose instructionText)) showsCanceled
              (frame_trace (snd final)).
Proof.
  intros Hgit Hcompletes final. subst final.
  destruct (run_shape args options) as [cleanup [E [_ [Hres _]]]].
  rewrite E, (Hres Hcompletes). unfold afterBody. fold (inForce options).
  rewrite body_run, Hgit. cbn [fst snd frame_trace].
  split; [reflexivity |]. split.
  - exists ([EvStatusBarMessage instructionText None]
            ++ (if truthyBool (showStagedChanges (inForce options))
                then [EvShowDiffSection Staged true] else [])
            ++ [EvGitRun args (Some (editorEnv host (inForce options)))]
            ++ (if truthyBool (updatePostCommitTask (inForce options))
                then [EvDelay 100; EvStatusAndUpdate] else [])),
           cleanup.
    now rewrite <- !app_assoc.
  - apply Precedes_app_found.
    + exists (EvDispose instructionText). split; [| reflexivity].
      destruct (truthyBool (showStagedChanges (inForce options))),
        (truthyBool (updatePostCommitTask (inForce options)));
        simpl; tauto.
    + destruct (truthyBool (showStagedChanges (inForce options))),
        (truthyBool (updatePostCommitTask (inForce options)));
        cbn [app];
        repeat first
          [ apply Precedes_found; [reflexivity | not_showsCanceled]
          | apply Precedes_skip; [not_showsCanceled |] ].
Qed.

(** The [try] and [catch] blocks close nothing. *)
Lemma body_closes_nothing (args : list string) (o : CommitEditorOptions) :
  forall x,
    In x (frame_trace
            (snd (tryCatch (commitTry deps host args o) (commitCatch deps o)
                           startFrame))) ->
    isClose x = false.
Proof.
  rewrite body_run. cbn [snd frame_trace].
  destruct (truthyBool (showStagedChanges o)),
    (truthyBool (updatePostCommitTask o)),
    (gitRunOutcome host args) as [out | e];
    cbn [app]; intros x Hx;
    repeat (destruct Hx as [Hx | Hx]; [subst x; reflexivity |]);
    contradiction.
Qed.

(** Nor do they have an event of the [finally] block. *)
Lemma body_not_cleanup (args : list string) (o : CommitEditorOptions) :
  forall x,
    In x (frame_trace
            (snd (tryCatch (commitTry deps host args o) (commitCatch deps o)
                           startFrame))) ->
    isCleanup x = false.
Proof.
  rewrite body_run. cbn [snd frame_trace].
  destruct (truthyBool (showStagedChanges o)),
    (truthyBool (updatePostCommitTask o)),
    (gitRunOutcome host args) as [out | e];
    cbn [app]; intros x Hx;
    repeat (destruct Hx as [Hx | Hx]; [subst x; reflexivity |]);
    contradiction.
Qed.

(** The number of closes in general: when the clean-up completes, the
    preview is closed once for each visible editor that shows its document,
    and the active editor is closed at no other time. *)
Lemma preview_closed_per_visible_editor (args : list string)
    (options : option CommitEditorOptions) (stagedEditor : TextEditor) :
  truthyBool (showStagedChanges (inForce options)) = true ->
  previewOutcome host = Fulfilled stagedEditor ->
  cleanupCompletes deps host args options ->
  let t :=
    frame_trace
      (snd (runCommitLikeCommand deps host args options startFrame)) in
  previewCloses (uri (document stagedEditor)) t
  = List.length (boundTo stagedEditor (visibleTextEditors host))
  /\ closeCount t
     = List.length (boundTo stagedEditor (visibleTextEditors host))
  /\ Precedes (eq (EvPreviewSettled true)) (fun e => isClose e = true) t.
Proof.
  intros Hshow Hed Hcompletes t. subst t.
  destruct (run_shape args options) as [cleanup [E [_ [_ Htask]]]].
  rewrite Hshow, Hed in Htask. destruct Htask as [new [-> Hok]].
  destruct (Hok Hcompletes) as [Hp Hn].
  rewrite E. unfold afterBody. fold (inForce options).
  pose proof (body_closes_nothing args (inForce options)) as Hbody.
  pose proof (body_not_cleanup args (inForce options)) as Hclean.
  split; [| split].
  - rewrite previewCloses_app by exact I.
    rewrite (previewCloses_none _ _ Hclean).
    change (previewCloses (uri (document stagedEditor))
              (EvPreviewSettled true :: new))
      with (match new with
            | e2 :: _ =>
                if closesPreview (uri (document stagedEditor))
                     (EvPreviewSettled true) e2 then 1 else 0
            | [] => 0
            end + previewCloses (uri (document stagedEditor)) new).
    rewrite Hp. now destruct new.
  - rewrite closeCount_app, (closeCount_none _ Hbody).
    change (closeCount (EvPreviewSettled true :: new))
      with (closeCount new).
    now rewrite Hn.
  - apply Precedes_app_clean.
    + intros x Hx Hclose. rewrite (Hbody x Hx) in Hclose. discriminate.
    + apply Precedes_found; [reflexivity | discriminate].
Qed.

(** C2, as amended. When the preview was started and opens, exactly one
    visible editor shows its document when the clean-up runs, and the
    clean-up completes (showing the document and closing the active editor
    do not fail): on every exit (the process succeeds, it fails and the
    failure is swallowed, it fails and the failure is raised) the preview
    is closed exactly once, that is its document is shown and the active
    editor is closed next; the active editor is closed at no other time;
    and the close does not come before the preview-open task has
    settled. *)
Theorem preview_closed_once (args : list string)
    (options : option CommitEditorOptions) (stagedEditor : TextEditor) :
  truthyBool (showStagedChanges (inForce options)) = true ->
  previewOutcome host = Fulfilled stagedEditor ->
  List.length (boundTo stagedEditor (visibleTextEditors host)) = 1 ->
  cleanupCompletes deps host args options ->
  let final := runCommitLikeCommand deps host args options startFrame in
  fst final
  = match gitRunOutcome host args with
    | Fulfilled _ => Returned tt
    | Rejected e =>
        if truthyBool (propagateErrors (inForce options))
        then Thrown e else Returned tt
    end
  /\ previewCloses (uri (document stagedEditor)) (frame_trace (snd final)) = 1
  /\ closeCount (frame_trace (snd final)) = 1
  /\ Precedes (eq (EvPreviewSettled true)) (fun e => isClose e = true)
              (frame_trace (snd final)).
Proof.
  intros Hshow Hed Hone Hcompletes final. subst final.
  pose proof (@preview_closed_per_visible_editor args options stagedEditor
                Hshow Hed Hcompletes) as Hcount.
  cbv zeta in Hcount. destruct Hcount as [Hp [Hn Hprec]].
  rewrite Hone in Hp, Hn.
  split; [| split; [exact Hp | split; [exact Hn | exact Hprec]]].
  destruct (run_shape args options) as [cleanup [_ [_ [Hres _]]]].
  rewrite (Hres Hcompletes), body_run. reflexivity.
Qed.

(** C9, as amended. The preview is opened exactly when the caller omits the
    options or passes options whose [showStagedChanges] is [true]. *)
Theorem preview_opened_iff (args : list string)
    (options : option CommitEditorOptions) :
  In (EvShowDiffSection Staged true)
     (frame_trace
        (snd (runCommitLikeCommand deps host args options startFrame)))
  <-> (options = None
       \/ exists o, options = Some o /\ showStagedChanges o = Some true).
Proof.
  destruct (run_shape args options) as [cleanup [E [Hc _]]].
  rewrite E. unfold afterBody. fold (inForce options).
  rewrite body_run. cbn [snd frame_trace].
  destruct (truthyBool (showStagedChanges (inForce options))) eqn:Hshow.
  - split.
    + intros _. destruct options as [o |]; [right | now left].
      exists o. split; [reflexivity |]. now apply truthyBool_true.
    + intros _. apply in_or_app; left; right; now left.
  - split.
    + intro H. exfalso. apply in_app_or in H as [H | H].
      * destruct (truthyBool (updatePostCommitTask (inForce options))),
          (gitRunOutcome host args);
          cbn [app] in H;
          repeat (destruct H as [H | H]; [discriminate H |]);
          exact H.
      * specialize (Hc _ H). discriminate Hc.
    + intros [Hnone | [o [Hsome Htrue]]]; subst options;
        unfold inForce, nullish in Hshow; cbn in Hshow.
      * discriminate Hshow.
      * rewrite Htrue in Hshow. discriminate Hshow.
Qed.

End Orchestrator.

Lemma commit_failure_reported_witness :
  gitRunOutcome (Sample.host None Sample.failed [Sample.preview]) ["commit"]
  = Rejected "exit 1"
  /\ fst (runCommitLikeCommand Sample.deps
            (Sample.host None Sample.failed [Sample.preview])
            ["commit"] None startFrame)
     = Returned tt
  /\ fst (runCommitLikeCommand Sample.deps
            (Sample.host None Sample.failed [Sample.preview])
            ["commit"] (Some (mkOptions None (Some true) None (Some true)))
            startFrame)
     = Thrown "exit 1".
Proof.
  split; [reflexivity | split].
  - exact (proj1 (@commit_failure_reported Sample.deps
                    (Sample.host None Sample.failed [Sample.preview])
                    ["commit"] None "exit 1" eq_refl eq_refl)).
  - exact (proj1 (@commit_failure_reported Sample.deps
                    (Sample.host None Sample.failed [Sample.preview])
                    ["commit"]
                    (Some (mkOptions None (Some true) None (Some true)))
                    "exit 1" eq_refl eq_refl)).
Defined.

(** The process fails, [propagateErrors] is unset, the preview fails to
    open: the call raises, with the failure of the preview. *)
Lemma commit_failure_reported_counterexample :
  gitRunOutcome Sample.hostNoPreview ["commit"] = Rejected "exit 1"
  /\ propagateErrors (inForce None) = None
  /\ fst (runCommitLikeCommand Sample.deps Sample.hostNoPreview
            ["commit"] None startFrame)
     = Thrown "cannot open"
  /\ fst (runCommitLikeCommand Sample.deps Sample.hostNoPreview
            ["commit"] None startFrame)
     <> Returned tt.
Proof.
  split; [reflexivity | split; [reflexivity | split; [reflexivity |]]].
  discriminate.
Qed.

Lemma preview_closed_once_witness :
  List.length
    (boundTo Sample.preview
       (visibleTextEditors
          (Sample.host None Sample.succeeded [Sample.preview; Sample.other])))
  = 1
  /\ cleanupCompletes Sample.deps
       (Sample.host None Sample.succeeded [Sample.preview; Sample.other])
       ["commit"] None
  /\ previewCloses (uri (document Sample.preview))
       (frame_trace
          (snd (runCommitLikeCommand Sample.deps
                  (Sample.host None Sample.succeeded
                     [Sample.preview; Sample.other])
                  ["commit"] None startFrame)))
     = 1.
Proof.
  split; [reflexivity | split; [reflexivity |]].
  exact (proj1 (proj2 (@preview_closed_once Sample.deps
                         (Sample.host None Sample.succeeded
                            [Sample.preview; Sample.other])
                         ["commit"] None Sample.preview
                         eq_refl eq_refl eq_refl eq_refl))).
Defined.

(** The preview was started and has opened, the clean-up completes, and two
    visible editors show the document of the preview: the preview is closed
    twice. *)
Lemma preview_closed_once_counterexample :
  In (EvShowDiffSection Staged true)
     (frame_trace
        (snd (runCommitLikeCommand Sample.deps
                (Sample.host None Sample.succeeded
                   [Sample.preview; Sample.preview])
                ["commit"] None startFrame)))
  /\ closeCount
       (frame_trace
          (snd (runCommitLikeCommand Sample.deps
                  (Sample.host None Sample.succeeded
                     [Sample.preview; Sample.preview])
                  ["commit"] None startFrame)))
     = 2
  /\ previewCloses (uri (document Sample.preview))
       (frame_trace
          (snd (runCommitLikeCommand Sample.deps
                  (Sample.host None Sample.succeeded
                     [Sample.preview; Sample.preview])
                  ["commit"] None startFrame)))
     = 2.
Proof.
  split; [right; left; reflexivity | split; reflexivity].
Qed.

(** And when no visible editor shows it, nothing is closed. *)
Example preview_not_visible_not_closed :
  closeCount
    (frame_trace
       (snd (runCommitLikeCommand Sample.deps
               (Sample.host None Sample.failed [Sample.other])
               ["commit"] None startFrame)))
  = 0.
Proof. reflexivity. Qed.

(** The caller passes options that set [propagateErrors] only:
    [showStagedChanges] is not set to [false], and no preview is opened. *)
Lemma preview_opened_iff_counterexample :
  showStagedChanges (mkOptions None None None (Some true)) <> Some false
  /\ ~ In (EvShowDiffSection Staged true)
          (frame_trace
             (snd (runCommitLikeCommand Sample.deps
                     (Sample.host None Sample.succeeded [Sample.preview])
                     ["commit"]
                     (Some (mkOptions None None None (Some true)))
                     startFrame))).
Proof.
  split; [discriminate |].
  intro H. cbv in H.
  repeat (destruct H as [H | H]; [discriminate H |]).
  exact H.
Qed.

(** The trace of a canceled commit with the default options. *)
Example canceled_commit_trace :
  runCommitLikeCommand Sample.deps
    (Sample.host None Sample.failed [Sample.preview]) ["commit"] None
    startFrame
  = (Returned tt,
     mkFrame
       [ EvStatusBarMessage instructionText None;
         EvShowDiffSection Staged true;
         EvGitRun ["commit"]
           (Some ("GIT_EDITOR", (dquote ++ "code" ++ dquote ++ " --wait")%string));
         EvProcessSettled false;
         EvDispose instructionText;
         EvStatusBarMessage canceledText (Some 5000%Z);
         EvPreviewSettled true;
         EvShowTextDocument 7 2%Z false;
         EvExecuteCommand "workbench.action.closeActiveEditor";
         EvExecuteCommand "workbench.action.navigateLeft" ]
       (Some (Fulfilled Sample.preview))
       (Some instructionText)).
Proof. reflexivity. Qed.

(** The process fails, [propagateErrors] is unset, the preview is open and
    visible, and its document cannot be shown: the call raises that failure
    and nothing is closed. *)
Example show_failure_raised :
  runCommitLikeCommand Sample.deps Sample.hostNoShow ["commit"] None
    startFrame
  = (Thrown "cannot show",
     mkFrame
       [ EvStatusBarMessage instructionText None;
         EvShowDiffSection Staged true;
         EvGitRun ["commit"]
           (Some ("GIT_EDITOR", (dquote ++ "code" ++ dquote ++ " --wait")%string));
         EvProcessSettled false;
         EvDispose instructionText;
         EvStatusBarMessage canceledText (Some 5000%Z);
         EvPreviewSettled true;
         EvShowTextDocument 7 2%Z false ]
       (Some (Fulfilled Sample.preview))
       (Some instructionText)).
Proof. reflexivity. Qed.

Example firstAppSegment_sample :
  firstAppSegment "/Applications/Visual Studio Code.app/Contents/MacOS/Electron"
  = "/Applications/Visual Studio Code.app".
Proof. reflexivity. Qed.

(* ================================================================== *)
(** * Further properties *)

(** ** What the actions of the menus do and never do *)

Section Actions.

Variable deps : Deps.
Variable host : Host.

(** Nothing is added to the trace. *)
Lemma ReadOnlyRun_nothing (verb : string) (sw : list Switch) (w : World)
    (r : Result (option ProcessOutput)) :
  ReadOnlyRun verb sw w (r, w).
Proof.
  split; [reflexivity |]. exists []. simpl.
  rewrite app_nil_r. repeat split; try lia; intros e [].
Qed.

(** Events that are neither writes nor process starts are added. *)
Lemma ReadOnlyRun_quiet (verb : string) (sw : list Switch)
    (repo : MagitRepository) (t new : list Event)
    (r : Result (option ProcessOutput)) :
  (forall e, In e new -> isWrite e = false /\ isGitRun e = false) ->
  ReadOnlyRun verb sw (mkWorld repo t) (r, mkWorld repo (t ++ new)).
Proof.
  intro Hq. split; [reflexivity |]. exists new. simpl.
  split; [reflexivity |]. split; [intros e He; apply (Hq e He) |].
  split.
  - assert (E : filter isGitRun new = []).
    { clear - Hq. induction new as [| x l IH]; [reflexivity |]. simpl.
      destruct (Hq x (or_introl eq_refl)) as [_ ->]. apply IH.
      intros e He. apply Hq. now right. }
    rewrite E. simpl. lia.
  - intros e He Hg. destruct (Hq e He) as [_ Hn]. congruence.
Qed.

(** Such events are added, and then the process is started. *)
Lemma ReadOnlyRun_process (verb : string) (sw : list Switch)
    (repo : MagitRepository) (t before : list Event) (tail : list string)
    (r : Result (option ProcessOutput)) :
  (forall e, In e before -> isWrite e = false /\ isGitRun e = false) ->
  ReadOnlyRun verb sw (mkWorld repo t)
    (r, mkWorld repo
          ((t ++ before)
             ++ [EvGitRun (verb :: switchesToArgs sw ++ tail) None])).
Proof.
  intro Hq. split; [reflexivity |].
  exists (before ++ [EvGitRun (verb :: switchesToArgs sw ++ tail) None]).
  simpl. split; [now rewrite app_assoc |].
  assert (E : filter isGitRun before = []).
  { clear - Hq. induction before as [| x l IH]; [reflexivity |]. simpl.
    destruct (Hq x (or_introl eq_refl)) as [_ ->]. apply IH.
    intros e He. apply Hq. now right. }
  split; [| split].
  - intros e He. apply in_app_or in He as [He | [<- | []]];
      [apply (Hq e He) | reflexivity].
  - rewrite filter_app, E. simpl. lia.
  - intros e He Hg. apply in_app_or in He as [He | [<- | []]].
    + destruct (Hq e He) as [_ Hn]. congruence.
    + now exists tail.
Qed.

Ltac quiet_events :=
  let e := fresh in let He := fresh in
  intros e He; simpl in He;
  repeat (destruct He as [He | He]; [subst e; split; reflexivity |]);
  contradiction.

Lemma returnGitRun_ReadOnlyRun (verb : string) (sw : list Switch)
    (repo : MagitRepository) (t before : list Event) (tail : list string) :
  (forall e, In e before -> isWrite e = false /\ isGitRun e = false) ->
  ReadOnlyRun verb sw (mkWorld repo t)
    (returnGitRun host (verb :: switchesToArgs sw ++ tail)
       (mkWorld repo (t ++ before))).
Proof.
  intro Hq. rewrite returnGitRun_run. now apply ReadOnlyRun_process.
Qed.

Lemma returnGitRun_ReadOnlyRun_0 (verb : string) (sw : list Switch)
    (repo : MagitRepository) (t : list Event) (tail : list string) :
  ReadOnlyRun verb sw (mkWorld repo t)
    (returnGitRun host (verb :: switchesToArgs sw ++ tail) (mkWorld repo t)).
Proof.
  pose proof (@returnGitRun_ReadOnlyRun verb sw repo t [] tail) as H.
  rewrite app_nil_r in H. apply H. intros e [].
Qed.

(** Every action other than the two that configure before they push is
    read-only. *)
Lemma direct_action_ReadOnlyRun (a : Action) (ms : MenuState) (w : World) :
  isSetAction a = false ->
  ReadOnlyRun (verbOf a) (switches ms) w (invoke deps host a ms w).
Proof.
  intro Hset. destruct w as [repo t].
  destruct a; try discriminate Hset; clear Hset;
    unfold invoke, verbOf, isFetchAction.
  - (* fetchFromPushRemote *)
    unfold fetchFromPushRemote, bind at 1, getRepository, bind at 1, getState,
      ret at 1. cbn [repository].
    destruct (headPushRemote repo);
      [apply returnGitRun_ReadOnlyRun_0 | apply ReadOnlyRun_nothing].
  - (* fetchFromUpstream *)
    unfold fetchFromUpstream, bind at 1, getRepository, bind at 1, getState,
      ret at 1. cbn [repository].
    destruct (headUpstreamRemote repo);
      [apply returnGitRun_ReadOnlyRun_0 | apply ReadOnlyRun_nothing].
  - (* fetchFromElsewhere *)
    unfold fetchFromElsewhere, bind at 1, getRepository, bind at 1, getState,
      ret at 1. cbn [repository].
    unfold bind at 1. rewrite QuickMenuUtil_showMenu_run.
    destruct (quickMenuAnswer host (remoteItems repo)) as [chosen | e].
    + destruct (whenTruthy chosen).
      * apply returnGitRun_ReadOnlyRun. quiet_events.
      * apply ReadOnlyRun_quiet. quiet_events.
    + apply ReadOnlyRun_quiet. quiet_events.
  - (* fetchAll *)
    unfold fetchAll. apply returnGitRun_ReadOnlyRun_0.
  - (* fetchAnotherBranch *)
    unfold fetchAnotherBranch, showInputBox.
    unfold bind at 1, bind at 1, emit, modify, ret at 1.
    cbn [trace_of with_trace World_Traced repository trace].
    destruct (whenTruthy (inputBoxAnswer host "Fetch from remote or url"))
      as [remote |].
    + unfold bind at 1, bind at 1, emit, modify, ret at 1.
      cbn [trace_of with_trace World_Traced repository trace].
      destruct (whenTruthy (inputBoxAnswer host "Fetch branch")) as [branch |].
      * rewrite <- app_assoc. apply returnGitRun_ReadOnlyRun. quiet_events.
      * rewrite <- app_assoc. apply ReadOnlyRun_quiet. quiet_events.
    + apply ReadOnlyRun_quiet. quiet_events.
  - (* pushToPushRemote *)
    unfold pushToPushRemote, bind at 1, getRepository, bind at 1, getState,
      ret at 1. cbn [repository].
    destruct (whenTruthy (remoteOf (headPushRemote repo))),
      (whenTruthy (headName repo));
      first [apply returnGitRun_ReadOnlyRun_0 | apply ReadOnlyRun_nothing].
  - (* pushUpstream *)
    unfold pushUpstream, bind at 1, getRepository, bind at 1, getState,
      ret at 1. cbn [repository].
    destruct (whenTruthy (remoteOf (headUpstreamRemote repo))),
      (whenTruthy (headName repo));
      first [apply returnGitRun_ReadOnlyRun_0 | apply ReadOnlyRun_nothing].
  - (* pushElsewhere *)
    unfold pushElsewhere, bind, emit, modify, ret.
    cbn [trace_of with_trace World_Traced repository trace].
    apply ReadOnlyRun_quiet. quiet_events.
  - (* pushTag *)
    unfold pushTag, bind at 1, getRepository, bind at 1, getState, ret at 1.
    cbn [repository].
    unfold bind at 1, emit, modify.
    cbn [trace_of with_trace World_Traced repository trace].
    destruct (whenTruthy (tagRemote repo)),
      (whenTruthy (chooseTagAnswer host "Push tag"));
      first [ apply returnGitRun_ReadOnlyRun; quiet_events
            | apply ReadOnlyRun_quiet; quiet_events ].
  - (* pushAllTags *)
    unfold pushAllTags, bind at 1, getRepository, bind at 1, getState,
      ret at 1. cbn [repository].
    destruct (whenTruthy (tagRemote repo));
      first [apply returnGitRun_ReadOnlyRun_0 | apply ReadOnlyRun_nothing].
Qed.

(** X1. An action other than the two that configure before they push leaves
    the repository as it was, writes no configuration, starts at most one
    process, and that process is [git fetch] (for an action of the fetching
    menu) or [git push] (otherwise) followed by the long forms of the enabled
    switches. *)
Theorem direct_actions_are_read_only (a : Action) (ms : MenuState)
    (w : World) :
  isSetAction a = false ->
  let outcome := invoke deps host a ms w in
  repository (snd outcome) = repository w
  /\ exists new,
       trace (snd outcome) = trace w ++ new
       /\ (forall e, In e new -> isWrite e = false)
       /\ List.length (filter isGitRun new) <= 1
       /\ (forall e, In e new -> isGitRun e = true ->
                     runsVerb (verbOf a) (switches ms) e).
Proof.
  intro Hset. exact (direct_action_ReadOnlyRun a ms w Hset).
Qed.

(** X2. Whenever the fetching menu offers [p], the item is bound to
    fetch-from-push-remote and invoking it starts
    [fetch <enabled long forms> <push remote>] and settles as that process
    does. *)
Theorem fetching_p_item_fetches (repo : MagitRepository) (v : TrackingRef)
    (ms : MenuState) (t : list Event) :
  headPushRemote repo = Some v ->
  let args := "fetch" :: switchesToArgs (switches ms) ++ [tr_remote v] in
  exists i,
    itemLabelled (fst (fetching repo)) "p" = Some i
    /\ action i = act_fetchFromPushRemote
    /\ invoke deps host (action i) ms (mkWorld repo t)
       = (settles (gitRunOutcome host args),
          mkWorld repo (t ++ [EvGitRun args None])).
Proof.
  intros Hv args.
  exists (mkMenuItem "p" (tr_remote v) act_fetchFromPushRemote).
  split; [| split; [reflexivity |]].
  - unfold itemLabelled, fetching, fetchingMenuItems; simpl.
    now rewrite Hv.
  - unfold invoke, action, fetchFromPushRemote, bind at 1, getRepository,
      bind at 1, getState, ret at 1. cbn [repository].
    rewrite Hv. apply returnGitRun_run.
Qed.

(** X3. In every repository state the pushing menu offers [p], [u], [e],
    [T], [t]; the fetching menu offers [p] when a push-remote is configured,
    then [u] when an upstream is, then [e], [a], [o]; the commit menu offers
    [c], [a], [e], [w], [f]; and the labels of each menu are pairwise
    distinct. *)
Theorem menu_labels_unique (repo : MagitRepository) :
  labels (fst (pushing repo)) = ["p"; "u"; "e"; "T"; "t"]
  /\ labels (fst (fetching repo))
     = (match headPushRemote repo with Some _ => ["p"] | None => [] end)
       ++ (match headUpstream repo with Some _ => ["u"] | None => [] end)
       ++ ["e"; "a"; "o"]
  /\ map cm_label (snd commitMenu) = ["c"; "a"; "e"; "w"; "f"]
  /\ NoDup (labels (fst (pushing repo)))
  /\ NoDup (labels (fst (fetching repo)))
  /\ NoDup (map cm_label (snd commitMenu)).
Proof.
  assert (Hnd : forall l : list string,
            (forallb (fun x => Nat.eqb (count_occ string_dec l x) 1) l = true)
            -> NoDup l).
  { intros l H. apply (NoDup_count_occ' string_dec). intros x Hx.
    rewrite forallb_forall in H. apply Nat.eqb_eq. now apply H. }
  assert (Hp : labels (fst (pushing repo)) = ["p"; "u"; "e"; "T"; "t"]).
  { unfold labels, pushing, generatePushingMenu; simpl.
    destruct (headPushRemote repo), (headUpstream repo); reflexivity. }
  assert (Hf : labels (fst (fetching repo))
               = (match headPushRemote repo with
                  | Some _ => ["p"] | None => [] end)
                 ++ (match headUpstream repo with
                     | Some _ => ["u"] | None => [] end)
                 ++ ["e"; "a"; "o"]).
  { unfold labels, fetching, fetchingMenuItems; simpl.
    destruct (headPushRemote repo), (headUpstream repo); reflexivity. }
  split; [exact Hp |]. split; [exact Hf |]. split; [reflexivity |].
  split; [rewrite Hp; now apply Hnd |].
  split; [| now apply Hnd].
  rewrite Hf.
  destruct (headPushRemote repo), (headUpstream repo); now apply Hnd.
Qed.

(** X4. The [p] item of the pushing menu: with a push-remote configured it
    is described as [<remote>/<name>], bound to the direct action, and
    invoking it on a named branch starts
    [push <enabled long forms> <remote> <current branch>]; with none
    configured it is bound to the action that sets one first. *)
Theorem pushing_p_item (repo : MagitRepository) (ms : MenuState)
    (t : list Event) :
  (forall v ref,
     headPushRemote repo = Some v -> tr_remote v <> empty ->
     headName repo = Some ref -> ref <> empty ->
     let args :=
       "push" :: switchesToArgs (switches ms) ++ [tr_remote v; ref] in
     exists i,
       itemLabelled (fst (pushing repo)) "p" = Some i
       /\ mi_description i = (tr_remote v ++ "/" ++ tr_name v)%string
       /\ action i = act_pushToPushRemote
       /\ invoke deps host (action i) ms (mkWorld repo t)
          = (settles (gitRunOutcome host args),
             mkWorld repo (t ++ [EvGitRun args None])))
  /\ (headPushRemote repo = None ->
      exists i,
        itemLabelled (fst (pushing repo)) "p" = Some i
        /\ action i = act_pushSetPushRemote).
Proof.
  split.
  - intros v ref Hv Hr Hn Hne args.
    exists (mkMenuItem "p" (tr_remote v ++ "/" ++ tr_name v)%string
                       act_pushToPushRemote).
    split; [| split; [reflexivity | split; [reflexivity |]]].
    + unfold itemLabelled, pushing, generatePushingMenu; simpl.
      now rewrite Hv.
    + unfold invoke, action.
      now apply pushToPushRemote_run.
  - intro Hnone.
    exists (mkMenuItem "p" "pushRemote, after setting that"
                       act_pushSetPushRemote).
    split; [| reflexivity].
    unfold itemLabelled, pushing, generatePushingMenu; simpl.
    now rewrite Hnone.
Qed.

(** X5. Fetch another branch: when the first input is empty or dismissed
    the branch is not asked for and no process is started; when the second
    is, no process is started; otherwise
    [fetch <enabled long forms> <remote> refs/heads/<branch>] is run. *)
Theorem fetchAnotherBranch_inputs (ms : MenuState) (repo : MagitRepository)
    (t : list Event) :
  let askRemote := EvInputBox "Fetch from remote or url" in
  let askBranch := EvInputBox "Fetch branch" in
  let run := fetchAnotherBranch host ms (mkWorld repo t) in
  (whenTruthy (inputBoxAnswer host "Fetch from remote or url") = None ->
   run = (Returned None, mkWorld repo (t ++ [askRemote])))
  /\ (forall remote,
        whenTruthy (inputBoxAnswer host "Fetch from remote or url")
          = Some remote ->
        whenTruthy (inputBoxAnswer host "Fetch branch") = None ->
        run = (Returned None, mkWorld repo (t ++ [askRemote; askBranch])))
  /\ (forall remote branch,
        whenTruthy (inputBoxAnswer host "Fetch from remote or url")
          = Some remote ->
        whenTruthy (inputBoxAnswer host "Fetch branch") = Some branch ->
        let args :=
          "fetch" :: switchesToArgs (switches ms)
            ++ [remote; ("refs/heads/" ++ branch)%string] in
        run = (settles (gitRunOutcome host args),
               mkWorld repo (t ++ [askRemote; askBranch; EvGitRun args None]))).
Proof.
  intros askRemote askBranch run. subst run.
  unfold fetchAnotherBranch, showInputBox.
  split; [| split].
  - intros Hr.
    unfold bind at 1, bind at 1, emit, modify, ret at 1.
    cbn [trace_of with_trace World_Traced repository trace].
    rewrite Hr. reflexivity.
  - intros remote Hr Hb.
    unfold bind at 1, bind at 1, emit, modify, ret at 1.
    cbn [trace_of with_trace World_Traced repository trace].
    rewrite Hr.
    unfold bind at 1, bind at 1, emit, modify, ret at 1.
    cbn [trace_of with_trace World_Traced repository trace].
    rewrite Hb, <- app_assoc. reflexivity.
  - intros remote branch Hr Hb.
    unfold bind at 1, bind at 1, emit, modify, ret at 1.
    cbn [trace_of with_trace World_Traced repository trace].
    rewrite Hr.
    unfold bind at 1, bind at 1, emit, modify, ret at 1.
    cbn [trace_of with_trace World_Traced repository trace].
    rewrite Hb, returnGitRun_run, <- !app_assoc. reflexivity.
Qed.

(** X6. The tag pushes resolve their remote as the remote of
    [HEAD.upstreamRemote] and, only when [HEAD.upstreamRemote] is undefined,
    as the remote of [HEAD.pushRemote].  With a remote [r]: push-all-tags
    runs [push <enabled long forms> r --tags], push-a-tag runs
    [push <enabled long forms> r <tag>] once a tag is chosen.  Without one:
    push-all-tags does nothing at all, and push-a-tag still asks for the tag
    and then does nothing. *)
Theorem tag_pushes (ms : MenuState) (repo : MagitRepository)
    (t : list Event) :
  (forall v, headUpstreamRemote repo = Some v ->
             tagRemote repo = Some (tr_remote v))
  /\ (headUpstreamRemote repo = None ->
      tagRemote repo = remoteOf (headPushRemote repo))
  /\ (forall r,
        whenTruthy (tagRemote repo) = Some r ->
        let all := "push" :: switchesToArgs (switches ms) ++ [r; "--tags"] in
        pushAllTags host ms (mkWorld repo t)
        = (settles (gitRunOutcome host all),
           mkWorld repo (t ++ [EvGitRun all None]))
        /\ forall tag,
             whenTruthy (chooseTagAnswer host "Push tag") = Some tag ->
             let one := "push" :: switchesToArgs (switches ms) ++ [r; tag] in
             pushTag host ms (mkWorld repo t)
             = (settles (gitRunOutcome host one),
                mkWorld repo
                  (t ++ [EvChooseTag "Push tag"; EvGitRun one None])))
  /\ (whenTruthy (tagRemote repo) = None ->
      pushAllTags host ms (mkWorld repo t) = (Returned None, mkWorld repo t)
      /\ pushTag host ms (mkWorld repo t)
         = (Returned None, mkWorld repo (t ++ [EvChooseTag "Push tag"]))).
Proof.
  split; [| split; [| split]].
  - intros v Hv. unfold tagRemote. now rewrite Hv.
  - intros Hnone. unfold tagRemote. now rewrite Hnone.
  - intros r Hr all. split.
    + unfold pushAllTags, bind at 1, getRepository, bind at 1, getState,
        ret at 1. cbn [repository].
      rewrite Hr. apply returnGitRun_run.
    + intros tag Htag one.
      unfold pushTag, bind at 1, getRepository, bind at 1, getState, ret at 1.
      cbn [repository].
      unfold bind at 1, emit, modify.
      cbn [trace_of with_trace World_Traced repository trace].
      rewrite Hr, Htag, returnGitRun_run, <- app_assoc. reflexivity.
  - intros Hnone. split.
    + unfold pushAllTags, bind at 1, getRepository, bind at 1, getState,
        ret at 1. cbn [repository].
      now rewrite Hnone.
    + unfold pushTag, bind at 1, getRepository, bind at 1, getState, ret at 1.
      cbn [repository].
      unfold bind at 1, emit, modify.
      cbn [trace_of with_trace World_Traced repository trace].
      now rewrite Hnone.
Qed.

End Actions.

(* ================================================================== *)
(** ** Configure, then retry: the other paths and the next menu *)

Section SetActions.

Variable deps : Deps.
Variable host : Host.

(** X7. Set-upstream-then-push does nothing beyond showing the chooser, and
    returns normally, when the chooser fails (the failure is swallowed), when
    it is dismissed or answers the empty string, when HEAD has no name, and
    when the chosen name does not split into a remote and a branch. *)
Theorem pushSetUpstream_declined (ms : MenuState) (repo : MagitRepository) :
  let items := upstreamItems deps repo in
  let nothing := (Returned None, mkWorld repo [EvQuickMenu items]) in
  let run := pushSetUpstream deps host ms (startWorld repo) in
  (forall e, quickMenuAnswer host items = Rejected e -> run = nothing)
  /\ (forall chosen,
        quickMenuAnswer host items = Fulfilled chosen ->
        whenTruthy chosen = None -> run = nothing)
  /\ (forall chosen,
        quickMenuAnswer host items = Fulfilled chosen ->
        whenTruthy (headName repo) = None -> run = nothing)
  /\ (forall chosen c remote name,
        quickMenuAnswer host items = Fulfilled chosen ->
        whenTruthy chosen = Some c ->
        remoteBranchFullNameToSegments deps c = (remote, name) ->
        whenTruthy remote = None \/ whenTruthy name = None ->
        run = nothing).
Proof.
  intros items nothing run. subst run nothing items.
  assert (Hstart : forall answer,
    quickMenuAnswer host (upstreamItems deps repo) = answer ->
    pushSetUpstream deps host ms (startWorld repo)
    = match whenTruthy (match answer with
                        | Fulfilled chosen => chosen
                        | Rejected _ => None
                        end),
            whenTruthy (headName repo) with
      | Some c, Some ref =>
          (let (remote, name) := remoteBranchFullNameToSegments deps c in
           match whenTruthy remote, whenTruthy name with
           | Some remote, Some name =>
               setConfigBoth host
                 ("branch." ++ ref ++ ".merge")%string
                 ("refs/heads/" ++ name)%string
                 ("branch." ++ ref ++ ".remote")%string remote ;;
               assignUpstreamRemote (mkTracking name remote) ;;
               pushUpstream host ms
           | _, _ => ret None
           end)
            (mkWorld repo [EvQuickMenu (upstreamItems deps repo)])
      | _, _ =>
          (Returned None, mkWorld repo [EvQuickMenu (upstreamItems deps repo)])
      end).
  { intros answer Hans.
    unfold pushSetUpstream, startWorld.
    unfold bind at 1, getRepository at 1, bind at 1, getState, ret at 1.
    cbn [repository].
    unfold bind at 1, tryCatch. rewrite QuickMenuUtil_showMenu_run, Hans.
    cbn [app].
    destruct answer as [chosen | e];
      unfold bind at 1, getRepository at 1, bind at 1, getState, ret at 1;
      cbn [repository];
      [destruct (whenTruthy chosen) | cbn [whenTruthy]];
      destruct (whenTruthy (headName repo)); reflexivity. }
  split; [| split; [| split]].
  - intros e Hans. now rewrite (Hstart _ Hans).
  - intros chosen Hans Hc. now rewrite (Hstart _ Hans), Hc.
  - intros chosen Hans Hn. rewrite (Hstart _ Hans), Hn.
    now destruct (whenTruthy chosen).
  - intros chosen c remote name Hans Hc Hsplit Hfalsy.
    rewrite (Hstart _ Hans), Hc.
    destruct (whenTruthy (headName repo)); [| reflexivity].
    rewrite Hsplit.
    destruct Hfalsy as [-> | Hn]; [reflexivity |].
    rewrite Hn. now destruct (whenTruthy remote).
Qed.

(** [pushSetPushRemote] up to the write, whatever HEAD is. *)
Lemma pushSetPushRemote_answered (ms : MenuState) (repo : MagitRepository) :
  pushSetPushRemote host ms (startWorld repo)
  = match quickMenuAnswer host (remoteItems repo) with
    | Fulfilled chosen =>
        match whenTruthy chosen, whenTruthy (headName repo) with
        | Some c, Some ref =>
            (setConfig host ("branch." ++ ref ++ ".pushRemote")%string c ;;
             assignPushRemote (mkTracking ref c) ;;
             pushToPushRemote host ms)
              (mkWorld repo [EvQuickMenu (remoteItems repo)])
        | _, _ =>
            (Returned None, mkWorld repo [EvQuickMenu (remoteItems repo)])
        end
    | Rejected e =>
        (Thrown e, mkWorld repo [EvQuickMenu (remoteItems repo)])
    end.
Proof.
  unfold pushSetPushRemote, startWorld.
  unfold bind at 1, getRepository at 1, bind at 1, getState, ret at 1.
  cbn [repository].
  unfold bind at 1. rewrite QuickMenuUtil_showMenu_run. cbn [app].
  destruct (quickMenuAnswer host (remoteItems repo)) as [chosen | e];
    [| reflexivity].
  unfold bind at 1, getRepository at 1, bind at 1, getState, ret at 1.
  cbn [repository].
  destruct (whenTruthy chosen), (whenTruthy (headName repo)); reflexivity.
Qed.

(** X8. Set-push-remote-then-push raises the failure of the chooser (it has
    no handler, unlike set-upstream-then-push), and on a HEAD without a name
    it does nothing beyond showing the chooser, whatever is chosen. *)
Theorem pushSetPushRemote_declined (ms : MenuState) (repo : MagitRepository) :
  let menu := EvQuickMenu (remoteItems repo) in
  let run := pushSetPushRemote host ms (startWorld repo) in
  (forall e, quickMenuAnswer host (remoteItems repo) = Rejected e ->
             run = (Thrown e, mkWorld repo [menu]))
  /\ (forall chosen,
        quickMenuAnswer host (remoteItems repo) = Fulfilled chosen ->
        whenTruthy (headName repo) = None ->
        run = (Returned None, mkWorld repo [menu])).
Proof.
  intros menu run. subst run menu. rewrite pushSetPushRemote_answered.
  split.
  - intros e ->. reflexivity.
  - intros chosen -> ->. now destruct (whenTruthy chosen).
Qed.

(** X9. Once set-push-remote-then-push has written the configuration, the
    menus built from the repository it leaves are the configured ones: the
    pushing menu binds [p] to the direct action and describes it as
    [<remote>/<branch>], and the fetching menu offers [p]. *)
Theorem menus_after_pushSetPushRemote (ms : MenuState)
    (repo : MagitRepository) (b r : string) :
  headName repo = Some b ->
  b <> empty ->
  r <> empty ->
  quickMenuAnswer host (remoteItems repo) = Fulfilled (Some r) ->
  setConfigFailure host ("branch." ++ b ++ ".pushRemote")%string r = None ->
  let after := repository (snd (pushSetPushRemote host ms (startWorld repo))) in
  itemLabelled (fst (pushing after)) "p"
  = Some (mkMenuItem "p" (r ++ "/" ++ b)%string act_pushToPushRemote)
  /\ itemLabelled (fst (fetching after)) "p"
     = Some (mkMenuItem "p" r act_fetchFromPushRemote).
Proof.
  intros Hb Hbne Hrne Hans Hok after.
  destruct (headName_defined repo Hb) as [h Hh].
  destruct (withPushRemote_head (mkTracking b r) repo Hh)
    as [Hpr [Hname _]].
  assert (Hafter : after = withPushRemote (mkTracking b r) repo).
  { subst after.
    rewrite pushSetPushRemote_answered, Hans, Hb,
      (whenTruthy_nonempty Hbne), (whenTruthy_nonempty Hrne).
    unfold bind at 1. rewrite setConfig_run, Hok.
    unfold bind at 1. rewrite (assignPushRemote_run _ _ _ Hh).
    rewrite (@pushToPushRemote_run host ms _ _ (mkTracking b r) b);
      [reflexivity | exact Hpr | exact Hrne | now rewrite Hname | exact Hbne]. }
  rewrite Hafter.
  unfold itemLabelled, pushing, generatePushingMenu, fetching,
    fetchingMenuItems; simpl.
  now rewrite Hpr.
Qed.

(** X10. Set-upstream-then-push sets [HEAD.upstreamRemote] and leaves
    [HEAD.upstream] alone: on a branch without upstream, after both writes
    have completed, the pushing menu built from the repository it leaves
    still binds [u] to set-upstream-then-push, and the fetching menu still
    does not offer [u]. *)
Theorem menus_after_pushSetUpstream (ms : MenuState)
    (repo : MagitRepository) (cur chosen remote name : string) :
  headName repo = Some cur ->
  cur <> empty ->
  headUpstream repo = None ->
  quickMenuAnswer host (upstreamItems deps repo) = Fulfilled (Some chosen) ->
  chosen <> empty ->
  remoteBranchFullNameToSegments deps chosen = (Some remote, Some name) ->
  remote <> empty ->
  name <> empty ->
  setConfigFailure host ("branch." ++ cur ++ ".merge")%string
                   ("refs/heads/" ++ name)%string = None ->
  setConfigFailure host ("branch." ++ cur ++ ".remote")%string remote = None ->
  let after :=
    repository (snd (pushSetUpstream deps host ms (startWorld repo))) in
  headUpstreamRemote after = Some (mkTracking name remote)
  /\ headUpstream after = None
  /\ itemLabelled (fst (pushing after)) "u"
     = Some (mkMenuItem "u" "@{upstream}, after setting that"
                        act_pushSetUpstream)
  /\ itemLabelled (fst (fetching after)) "u" = None.
Proof.
  intros Hcur Hcne Hup Hans Hchne Hsplit Hrne Hnne Hok1 Hok2 after.
  destruct (headName_defined repo Hcur) as [h Hh].
  destruct (withUpstreamRemote_head (mkTracking name remote) repo Hh)
    as [Hur [Hname [Hupstream [Hpr _]]]].
  assert (Hafter : after = withUpstreamRemote (mkTracking name remote) repo).
  { subst after.
    rewrite (pushSetUpstream_start deps host repo ms Hcur Hcne Hans Hchne
               Hsplit Hrne Hnne).
    unfold bind at 1. rewrite setConfigBoth_run, Hok1, Hok2. cbv zeta.
    destruct (secondSettlesFirst host);
      unfold bind at 1; rewrite (assignUpstreamRemote_run _ _ _ Hh);
      rewrite (@pushUpstream_run host ms _ _ (mkTracking name remote) cur);
      first [reflexivity | exact Hur | exact Hrne | exact Hcne
            | now rewrite Hname]. }
  rewrite Hafter. rewrite Hup in Hupstream.
  split; [exact Hur |]. split; [exact Hupstream |].
  unfold itemLabelled, pushing, generatePushingMenu, fetching,
    fetchingMenuItems; simpl.
  rewrite Hupstream, Hpr.
  destruct (headPushRemote repo); split; reflexivity.
Qed.

End SetActions.

(* ================================================================== *)
(** ** The resolver: what it excludes and how it orders *)

Section SortingByType.

Context {A : Type} (cmp : A -> A -> Z).

(** An element passes every element it has to follow. *)
Lemma insertSorted_skip (x : A) (front back : list A) :
  (forall y, In y front -> (0 < cmp x y)%Z) ->
  insertSorted cmp x (front ++ back) = front ++ insertSorted cmp x back.
Proof.
  intro Hf. induction front as [| y front IH]; simpl; [reflexivity |].
  destruct (Z.leb_spec (cmp x y) 0) as [Hle | _].
  - specialize (Hf y (or_introl eq_refl)). lia.
  - f_equal. apply IH. intros z Hz. apply Hf. now right.
Qed.

(** And stops in front of the first one it may precede. *)
Lemma insertSorted_stop (x : A) (back : list A) :
  (forall y, In y back -> (cmp x y <= 0)%Z) ->
  insertSorted cmp x back = x :: back.
Proof.
  intro Hb. destruct back as [| y back]; simpl; [reflexivity |].
  destruct (Z.leb_spec (cmp x y) 0) as [_ | Hgt]; [reflexivity |].
  specialize (Hb y (or_introl eq_refl)). lia.
Qed.

End SortingByType.

Lemma filter_type_In (p : Ref -> bool) (l : list Ref) (y : Ref) :
  In y (filter p l) -> p y = true.
Proof. intro H. now apply filter_In in H. Qed.

(** The sort of the resolver is a stable partition by type: the tags, then
    the remote heads, then the local branches, each group in the order of
    the input. *)
Lemma sort_byTypeDescending (l : list Ref) :
  sort byTypeDescending l
  = filter isTag l ++ filter isRemoteHead l ++ filter isHead l.
Proof.
  induction l as [| x l IH]; [reflexivity |].
  change (sort byTypeDescending (x :: l))
    with (insertSorted byTypeDescending x (sort byTypeDescending l)).
  rewrite IH. clear IH.
  assert (Ht : forall y, In y (filter isTag l) -> ref_type y = Tag).
  { intros y Hy. apply filter_type_In in Hy. unfold isTag in Hy.
    destruct (ref_type y); try discriminate Hy; reflexivity. }
  assert (Hr : forall y, In y (filter isRemoteHead l) ->
                         ref_type y = RemoteHead).
  { intros y Hy. apply filter_type_In in Hy. unfold isRemoteHead in Hy.
    destruct (ref_type y); try discriminate Hy; reflexivity. }
  assert (Hh : forall y, In y (filter isHead l) -> ref_type y = Head).
  { intros y Hy. apply filter_type_In in Hy. unfold isHead in Hy.
    destruct (ref_type y); try discriminate Hy; reflexivity. }
  cbn [filter].
  change (isTag x) with (RefType_eqb (ref_type x) Tag).
  change (isRemoteHead x) with (RefType_eqb (ref_type x) RemoteHead).
  change (isHead x) with (RefType_eqb (ref_type x) Head).
  destruct (ref_type x) eqn:Hx;
    cbv [RefType_eqb RefType_value Z.eqb]; cbv iota.
  - (* a local branch goes behind the tags and the remote heads *)
    rewrite app_assoc, insertSorted_skip, <- app_assoc.
    + rewrite insertSorted_stop; [reflexivity |].
      intros y Hy. unfold byTypeDescending. rewrite Hx, (Hh y Hy). simpl. lia.
    + intros y Hy. unfold byTypeDescending. rewrite Hx.
      apply in_app_or in Hy as [Hy | Hy];
        [rewrite (Ht y Hy) | rewrite (Hr y Hy)]; simpl; lia.
  - (* a remote head goes behind the tags *)
    rewrite insertSorted_skip.
    + rewrite insertSorted_stop; [reflexivity |].
      intros y Hy. unfold byTypeDescending. rewrite Hx.
      apply in_app_or in Hy as [Hy | Hy];
        [rewrite (Hr y Hy) | rewrite (Hh y Hy)]; simpl; lia.
    + intros y Hy. unfold byTypeDescending.
      rewrite Hx, (Ht y Hy). simpl. lia.
  - (* a tag stays in front *)
    rewrite insertSorted_stop; [reflexivity |].
    intros y Hy. unfold byTypeDescending. rewrite Hx.
    destruct (ref_type y); simpl; lia.
Qed.

Section ResolverOrder.

Variable deps : Deps.

(** X11. No candidate is a tag and none carries the name of the current
    branch; an item's value is its label, the name of its ref. *)
Theorem upstream_candidates_exclude (repo : MagitRepository) :
  (forall r, In r (upstreamCandidates repo) ->
             ref_type r <> Tag /\ ref_name r <> headName repo)
  /\ (forall i, In i (upstreamItems deps repo) ->
                qi_label i <> headName repo /\ qi_meta i = qi_label i).
Proof.
  assert (Hc : forall r, In r (upstreamCandidates repo) ->
                         ref_type r <> Tag /\ ref_name r <> headName repo).
  { intros r Hr. unfold upstreamCandidates in Hr.
    apply sort_In, filter_In in Hr as [_ Hk].
    unfold keepCandidate in Hk. apply andb_prop in Hk as [Ht Hn].
    split.
    - intro E. rewrite E in Ht. discriminate Ht.
    - intro E. rewrite E in Hn. unfold strictEq in Hn.
      destruct (headName repo) as [h |]; [| discriminate Hn].
      rewrite String.eqb_refl in Hn. discriminate Hn. }
  split; [exact Hc |].
  intros i Hi. unfold upstreamItems in Hi.
  apply in_map_iff in Hi as [r [<- Hr]]. simpl.
  split; [apply (Hc r Hr) | reflexivity].
Qed.

(** X12. The candidates are the kept choices, the remote heads first and
    the local branches behind them, each group in the order of the choices;
    so their number is the number of kept choices. *)
Theorem upstream_candidates_order (repo : MagitRepository) :
  let kept := filter (keepCandidate repo) (upstreamChoices repo) in
  upstreamCandidates repo = filter isRemoteHead kept ++ filter isHead kept
  /\ List.length (upstreamItems deps repo) = List.length kept.
Proof.
  intro kept. split.
  - unfold upstreamCandidates. fold kept. rewrite sort_byTypeDescending.
    assert (E : filter isTag kept = []).
    { subst kept. induction (upstreamChoices repo) as [| x l IH];
        [reflexivity |].
      simpl. unfold keepCandidate at 1, isTag.
      destruct (RefType_eqb (ref_type x) Tag) eqn:Hx; simpl; [exact IH |].
      destruct (negb (strictEq (ref_name x) (headName repo))); simpl;
        [| exact IH].
      unfold isTag in IH. now rewrite Hx. }
    now rewrite E.
  - unfold upstreamItems, upstreamCandidates. fold kept.
    rewrite length_map. apply Permutation_length, sort_perm.
Qed.

End ResolverOrder.

(* ================================================================== *)
(** ** The commit orchestrator: every path *)

Lemma countOf_app (p : Event -> bool) (a b : list Event) :
  countOf p (a ++ b) = countOf p a + countOf p b.
Proof.
  unfold countOf. now rewrite filter_app, length_app.
Qed.

Lemma countOf_none (p : Event -> bool) (l : list Event) :
  (forall x, In x l -> p x = false) -> countOf p l = 0.
Proof.
  unfold countOf. induction l as [| x l IH]; intro H; [reflexivity |].
  simpl. rewrite (H x (or_introl eq_refl)). apply IH.
  intros y Hy. apply H. now right.
Qed.

Section OrchestratorPaths.

Variable deps : Deps.
Variable host : Host.

(** The trace of an invocation is the trace of its [try] and [catch] blocks
    followed by events of the [finally] block. *)
Lemma run_trace_split (args : list string)
    (options : option CommitEditorOptions) :
  exists cleanup,
    frame_trace
      (snd (runCommitLikeCommand deps host args options startFrame))
    = frame_trace
        (snd (tryCatch (commitTry deps host args (inForce options))
                       (commitCatch deps (inForce options)) startFrame))
      ++ cleanup
    /\ (forall e, In e cleanup -> isCleanup e = true)
    /\ (truthyBool (showStagedChanges (inForce options)) = false ->
        cleanup = []).
Proof.
  destruct (run_shape deps host args options) as [cleanup [E [Hc [_ Htask]]]].
  exists cleanup. split; [exact E |]. split; [exact Hc |].
  intro Hshow. rewrite Hshow in Htask. apply Htask.
Qed.

(** A count of events that are not of the [finally] block is the count in
    the [try] and [catch] blocks. *)
Lemma countOf_body (p : Event -> bool) (args : list string)
    (options : option CommitEditorOptions) :
  (forall e, isCleanup e = true -> p e = false) ->
  countOf p
    (frame_trace
       (snd (runCommitLikeCommand deps host args options startFrame)))
  = countOf p
      (frame_trace
         (snd (tryCatch (commitTry deps host args (inForce options))
                        (commitCatch deps (inForce options)) startFrame))).
Proof.
  intro Hp. destruct (run_trace_split args options) as [cleanup [E [Hc _]]].
  rewrite E, countOf_app, (@countOf_none p cleanup); [lia |].
  intros x Hx. apply Hp, Hc, Hx.
Qed.

(** Two messages are shown, on every path. *)
Lemma status_message_count (args : list string)
    (options : option CommitEditorOptions) :
  countOf isStatusMessage
    (frame_trace
       (snd (runCommitLikeCommand deps host args options startFrame)))
  = 2.
Proof.
  rewrite countOf_body, body_run.
  - cbn [snd frame_trace].
    destruct (truthyBool (showStagedChanges (inForce options))),
      (truthyBool (updatePostCommitTask (inForce options))),
      (gitRunOutcome host args); reflexivity.
  - intros e He. destruct e; try discriminate He; reflexivity.
Qed.

(** How every invocation starts. *)
Lemma run_starts (args : list string)
    (options : option CommitEditorOptions) :
  exists rest,
    frame_trace
      (snd (runCommitLikeCommand deps host args options startFrame))
    = [EvStatusBarMessage instructionText None]
      ++ (if truthyBool (showStagedChanges (inForce options))
          then [EvShowDiffSection Staged true] else [])
      ++ EvGitRun args (Some (editorEnv host (inForce options))) :: rest.
Proof.
  destruct (run_trace_split args options) as [cleanup [E _]].
  rewrite E, body_run. cbn [snd frame_trace].
  eexists. rewrite <- !app_assoc. cbn [app]. reflexivity.
Qed.

(** A refresh needs [updatePostCommitTask]. *)
Lemma refresh_needs_option (args : list string)
    (options : option CommitEditorOptions) :
  In EvStatusAndUpdate
     (frame_trace
        (snd (runCommitLikeCommand deps host args options startFrame)))
  -> truthyBool (updatePostCommitTask (inForce options)) = true.
Proof.
  destruct (run_trace_split args options) as [cleanup [E [Hc _]]].
  rewrite E, body_run. cbn [snd frame_trace]. intro He.
  destruct (truthyBool (updatePostCommitTask (inForce options)));
    [reflexivity |].
  exfalso. apply in_app_or in He as [He | He].
  - destruct (truthyBool (showStagedChanges (inForce options))),
      (gitRunOutcome host args);
      cbn [app] in He;
      repeat (destruct He as [He | He]; [discriminate He |]);
      contradiction.
  - specialize (Hc _ He). discriminate Hc.
Qed.

(** X13. When the git process succeeds and the [finally] block completes
    (the preview, if it was started, opens, and showing its document and
    closing the active editor do not fail): the call returns normally
    whatever [propagateErrors] is; once the outcome is observed the
    instructional message is disposed and then
    [Git finished: <the collapsed output>] is shown; the message that the
    commit was canceled is never shown. *)
Theorem commit_success_reported (args : list string)
    (options : option CommitEditorOptions) (out : ProcessOutput) :
  gitRunOutcome host args = Fulfilled out ->
  cleanupCompletes deps host args options ->
  let final := runCommitLikeCommand deps host args options startFrame in
  fst final = Returned tt
  /\ (exists pre post,
        frame_trace (snd final)
        = pre
          ++ [ EvProcessSettled true; EvDispose instructionText;
               EvStatusBarMessage
                 ("Git finished: " ++ collapseLines deps (stdout out))%string
                 (Some (StatusMessageDisplayTimeout deps)) ]
          ++ post)
  /\ (forall e, In e (frame_trace (snd final)) -> ~ showsCanceled e).
Proof.
  intros Hgit Hcompletes final.
  assert (Hresult : fst final = Returned tt).
  { subst final.
    destruct (run_shape deps host args options) as [c [_ [_ [Hres _]]]].
    now rewrite (Hres Hcompletes), body_run, Hgit. }
  split; [exact Hresult |].
  destruct (run_trace_split args options) as [cleanup [E [Hc _]]].
  fold final in E. rewrite E, body_run, Hgit. cbn [snd frame_trace].
  split.
  - exists ([EvStatusBarMessage instructionText None]
            ++ (if truthyBool (showStagedChanges (inForce options))
                then [EvShowDiffSection Staged true] else [])
            ++ [EvGitRun args (Some (editorEnv host (inForce options)))]
            ++ (if truthyBool (updatePostCommitTask (inForce options))
                then [EvDelay 100; EvStatusAndUpdate] else [])),
           cleanup.
    now rewrite <- !app_assoc.
  - intros e He [timeout Hcancel]. subst e.
    apply in_app_or in He as [He | He].
    + destruct (truthyBool (showStagedChanges (inForce options))),
        (truthyBool (updatePostCommitTask (inForce options)));
        cbn [app] in He;
        repeat (destruct He as [He | He]; [discriminate He |]);
        contradiction.
    + specialize (Hc _ He). discriminate Hc.
Qed.

(** X14. On every path of every invocation the instructional message is
    the first effect; exactly two messages are shown in the status bar, the
    instructional one and the one that reports the outcome; and exactly one
    message is disposed, the instructional one. *)
Theorem status_messages (args : list string)
    (options : option CommitEditorOptions) :
  let t :=
    frame_trace
      (snd (runCommitLikeCommand deps host args options startFrame)) in
  hd_error t = Some (EvStatusBarMessage instructionText None)
  /\ countOf isStatusMessage t = 2
  /\ countOf isDispose t = 1
  /\ In (EvDispose instructionText) t.
Proof.
  intro t. subst t.
  split; [| split; [| split]].
  - destruct (run_trace_split args options) as [cleanup [E _]].
    rewrite E, body_run. reflexivity.
  - apply status_message_count.
  - rewrite countOf_body, body_run.
    + cbn [snd frame_trace].
      destruct (truthyBool (showStagedChanges (inForce options))),
        (truthyBool (updatePostCommitTask (inForce options))),
        (gitRunOutcome host args); reflexivity.
    + intros e He. destruct e; try discriminate He; reflexivity.
  - destruct (run_trace_split args options) as [cleanup [E _]].
    rewrite E, body_run. cbn [snd frame_trace].
    apply in_or_app. left.
    destruct (truthyBool (showStagedChanges (inForce options))),
      (truthyBool (updatePostCommitTask (inForce options))),
      (gitRunOutcome host args); simpl; tauto.
Qed.

(** X15. Every invocation starts exactly one process: it is given the
    argument vector unchanged and an environment with one variable, named
    by [editor] or else [GIT_EDITOR], whose value is the quoted path of the
    [code] command followed by [--wait] (the path is [code] itself off
    macOS); it is started after the instructional message is shown and
    after the preview is started, and before anything else. *)
Theorem one_process_started (args : list string)
    (options : option CommitEditorOptions) :
  let o := inForce options in
  let t :=
    frame_trace
      (snd (runCommitLikeCommand deps host args options startFrame)) in
  countOf isGitRun t = 1
  /\ (exists rest,
        t = [EvStatusBarMessage instructionText None]
            ++ (if truthyBool (showStagedChanges o)
                then [EvShowDiffSection Staged true] else [])
            ++ EvGitRun args (Some (editorEnv host o)) :: rest)
  /\ fst (editorEnv host o) = nullish (editor o) "GIT_EDITOR"
  /\ snd (editorEnv host o)
     = (dquote ++ codePath host ++ dquote ++ " --wait")%string
  /\ (codePath host = "code" \/ platform host = "darwin").
Proof.
  intros o t. subst t o.
  split; [| split; [| split; [| split]]].
  - rewrite countOf_body, body_run.
    + cbn [snd frame_trace].
      destruct (truthyBool (showStagedChanges (inForce options))),
        (truthyBool (updatePostCommitTask (inForce options))),
        (gitRunOutcome host args); reflexivity.
    + intros e He. destruct e; try discriminate He; reflexivity.
  - apply run_starts.
  - reflexivity.
  - reflexivity.
  - unfold codePath.
    destruct (String.eqb_spec (platform host) "darwin"); [now right | now left].
Qed.

(** X16. When the preview was started and fails to open, the call raises
    the failure of the preview on every path: the process succeeded, it
    failed with [propagateErrors] unset, it failed with [propagateErrors]
    set.  The outcome of the process has been reported in the status bar by
    then, and nothing is closed. *)
Theorem preview_failure_raised (args : list string)
    (options : option CommitEditorOptions) (e : Error) :
  truthyBool (showStagedChanges (inForce options)) = true ->
  previewOutcome host = Rejected e ->
  let final := runCommitLikeCommand deps host args options startFrame in
  fst final = Thrown e
  /\ closeCount (frame_trace (snd final)) = 0
  /\ countOf isStatusMessage (frame_trace (snd final)) = 2
  /\ (exists before,
        frame_trace (snd final) = before ++ [EvPreviewSettled false]).
Proof.
  intros Hshow Hed final. subst final.
  destruct (run_shape deps host args options) as [cleanup [E [_ [_ Htask]]]].
  rewrite Hshow, Hed in Htask. destruct Htask as [-> Hres].
  split; [exact Hres |].
  split; [| split].
  - rewrite E, closeCount_app. unfold afterBody. fold (inForce options).
    rewrite (closeCount_none _
               (body_closes_nothing deps host args (inForce options))).
    reflexivity.
  - apply status_message_count.
  - rewrite E. eexists. reflexivity.
Qed.

(** X17. When no preview is started (the options are given and their
    [showStagedChanges] is not [true]) the invocation has no effect on the
    preview or the editors: no preview is opened or awaited, no document is
    shown, no command is executed; and it settles as the [try] and [catch]
    blocks do. *)
Theorem no_preview_no_cleanup (args : list string)
    (options : option CommitEditorOptions) :
  truthyBool (showStagedChanges (inForce options)) = false ->
  let final := runCommitLikeCommand deps host args options startFrame in
  (forall e, In e (frame_trace (snd final)) -> isPreviewEvent e = false)
  /\ fst final
     = match gitRunOutcome host args with
       | Fulfilled _ => Returned tt
       | Rejected e =>
           if truthyBool (propagateErrors (inForce options))
           then Thrown e else Returned tt
       end.
Proof.
  intros Hshow final. subst final.
  destruct (run_shape deps host args options) as [cleanup [E [_ [_ Htask]]]].
  rewrite Hshow in Htask. destruct Htask as [-> Hres].
  rewrite E, Hres, app_nil_r. unfold afterBody. fold (inForce options).
  rewrite body_run, Hshow. cbn [fst snd frame_trace].
  split; [| reflexivity].
  intros e He.
  destruct (truthyBool (updatePostCommitTask (inForce options))),
    (gitRunOutcome host args);
    cbn [app] in He;
    repeat (destruct He as [He | He]; [subst e; reflexivity |]);
    contradiction.
Qed.

(** X18. The repository status is refreshed exactly when
    [updatePostCommitTask] is [true] in options that are given (never when
    the options are omitted); when it is, the refresh directly follows the
    delay of 100 ms that follows the start of the process, and the outcome
    of the process is observed next. *)
Theorem refresh_iff_updatePostCommitTask (args : list string)
    (options : option CommitEditorOptions) :
  let t :=
    frame_trace
      (snd (runCommitLikeCommand deps host args options startFrame)) in
  (In EvStatusAndUpdate t
   <-> exists o, options = Some o /\ updatePostCommitTask o = Some true)
  /\ (In EvStatusAndUpdate t ->
      exists pre ok post,
        t = pre
            ++ [ EvGitRun args (Some (editorEnv host (inForce options)));
                 EvDelay 100; EvStatusAndUpdate; EvProcessSettled ok ]
            ++ post)
  /\ countOf (fun e => match e with EvStatusAndUpdate => true | _ => false end)
             t <= 1.
Proof.
  intro t. subst t.
  destruct (run_trace_split args options) as [cleanup [E [Hc _]]].
  assert (Hupd : truthyBool (updatePostCommitTask (inForce options)) = true
                 <-> exists o, options = Some o
                               /\ updatePostCommitTask o = Some true).
  { rewrite truthyBool_true. destruct options as [o |]; simpl.
    - split; [intro H; now exists o | intros [o' [[= <-] H]]; exact H].
    - split; [discriminate | intros [o' [H _]]; discriminate H]. }
  pose proof (refresh_needs_option args options) as Hin.
  assert (Hshape : truthyBool (updatePostCommitTask (inForce options)) = true ->
    exists pre ok post,
      frame_trace
        (snd (runCommitLikeCommand deps host args options startFrame))
      = pre
        ++ [ EvGitRun args (Some (editorEnv host (inForce options)));
             EvDelay 100; EvStatusAndUpdate; EvProcessSettled ok ]
        ++ post).
  { intro Htrue. rewrite E, body_run, Htrue. cbn [snd frame_trace].
    exists ([EvStatusBarMessage instructionText None]
            ++ (if truthyBool (showStagedChanges (inForce options))
                then [EvShowDiffSection Staged true] else [])).
    destruct (gitRunOutcome host args) as [out | e].
    - exists true. eexists. rewrite <- !app_assoc. cbn [app]. reflexivity.
    - exists false. eexists. rewrite <- !app_assoc. cbn [app]. reflexivity. }
  split; [| split].
  - rewrite <- Hupd. split; [exact Hin |].
    intro Htrue. destruct (Hshape Htrue) as [pre [ok [post ->]]].
    apply in_or_app. right. simpl. tauto.
  - intro He. exact (Hshape (Hin He)).
  - rewrite countOf_body, body_run.
    + cbn [snd frame_trace].
      destruct (truthyBool (showStagedChanges (inForce options))),
        (truthyBool (updatePostCommitTask (inForce options))),
        (gitRunOutcome host args); unfold countOf; simpl; lia.
    + intros e He. destruct e; try discriminate He; reflexivity.
Qed.

Section CommitMenuActions.

Variable chooseCommitAnswer : string -> jsString.

(** X19. An item of the commit menu that is bound to [commit], with or
    without extra arguments, shows no commit chooser and runs the
    orchestrator with the default options on
    [commit <enabled long forms> <its extra arguments>]: the instructional
    message, then the preview, then the process; no refresh of the status;
    and when the [finally] block completes (the preview opens, and showing
    its document and closing the active editor do not fail) the action
    returns normally, also when the process fails. *)
Theorem commit_items_run_orchestrator (item : CommitMenuItem)
    (extra : list string) (ms : MenuState) :
  In item (snd commitMenu) ->
  cm_action item = act_commit extra ->
  let args := "commit" :: switchesToArgs (switches ms) ++ extra in
  let final :=
    invokeCommit deps host chooseCommitAnswer (cm_action item) ms
                 startCommitWorld in
  chooserPrompts (snd final) = []
  /\ (exists rest,
        frame_trace (frame (snd final))
        = [ EvStatusBarMessage instructionText None;
            EvShowDiffSection Staged true;
            EvGitRun args (Some (editorEnv host defaultOptions)) ] ++ rest)
  /\ ~ In EvStatusAndUpdate (frame_trace (frame (snd final)))
  /\ (cleanupCompletes deps host args None -> fst final = Returned None).
Proof.
  intros _ Hact args final. subst final. rewrite Hact.
  unfold invokeCommit, bind, inFrame, commit, startCommitWorld, ret.
  cbn [frame chooserPrompts]. fold args.
  pose proof (refresh_needs_option args None) as Hiff.
  destruct (run_starts args None) as [rest Hrest].
  cbn [inForce nullish defaultOptions showStagedChanges truthyBool
       updatePostCommitTask app] in Hiff, Hrest.
  assert (Hres : cleanupCompletes deps host args None ->
            fst (runCommitLikeCommand deps host args None startFrame)
            = Returned tt).
  { intro Hcompletes.
    destruct (run_shape deps host args None) as [c [_ [_ [Hbody _]]]].
    rewrite (Hbody Hcompletes), body_run.
    cbn [fst inForce nullish defaultOptions propagateErrors truthyBool].
    now destruct (gitRunOutcome host args). }
  destruct (runCommitLikeCommand deps host args None startFrame)
    as [[u | e] f] eqn:Hrun; cbn [fst snd frame chooserPrompts] in *.
  - split; [reflexivity |]. split; [exists rest; exact Hrest |].
    split; [| reflexivity].
    intro Hin. apply Hiff in Hin. discriminate Hin.
  - split; [reflexivity |]. split; [exists rest; exact Hrest |].
    split.
    + intro Hin. apply Hiff in Hin. discriminate Hin.
    + intro Hcompletes. specialize (Hres Hcompletes). discriminate Hres.
Qed.

(** X20. Fixup asks for a commit; when none is chosen it raises
    [No commit chosen to fixup] and starts no process; when [sha] is chosen
    it runs [commit <enabled long forms> --fixup sha] without an
    environment, shows nothing in the status bar, opens no preview, and
    settles as the process does, so that a failure of the process is
    raised. *)
Theorem fixup_outcomes (ms : MenuState) :
  let run :=
    invokeCommit deps host chooseCommitAnswer act_fixup ms startCommitWorld in
  (whenTruthy (chooseCommitAnswer "Fixup commit") = None ->
   run = (Thrown "No commit chosen to fixup",
          mkCommitWorld ["Fixup commit"] startFrame))
  /\ (forall sha,
        whenTruthy (chooseCommitAnswer "Fixup commit") = Some sha ->
        let args :=
          "commit" :: switchesToArgs (switches ms) ++ ["--fixup"; sha] in
        run = (settles (gitRunOutcome host args),
               mkCommitWorld ["Fixup commit"]
                 (mkFrame [EvGitRun args None] None None))).
Proof.
  intro run. subst run.
  unfold invokeCommit, fixup, chooseCommit, startCommitWorld, startFrame.
  split.
  - intro Hnone.
    unfold bind at 1, bind at 1, modify, ret at 1.
    cbn [chooserPrompts frame app].
    rewrite Hnone. reflexivity.
  - intros sha Hsha.
    unfold bind at 1, bind at 1, modify, ret at 1.
    cbn [chooserPrompts frame app].
    rewrite Hsha.
    unfold gitRun, bind, emit, modify, ret, await, settles.
    cbn [trace_of with_trace CommitWorld_Traced chooserPrompts frame
         frame_trace stagedEditorTask instructionStatus app].
    destruct (gitRunOutcome host
                ("commit" :: switchesToArgs (switches ms) ++ ["--fixup"; sha]));
      reflexivity.
Qed.

End CommitMenuActions.

End OrchestratorPaths.

(* ================================================================== *)
(** ** The path of the [code] command *)

Lemma prefix_split (p s : string) :
  prefix p s = true -> exists rest, s = (p ++ rest)%string.
Proof.
  revert s. induction p as [| a p IH]; intros s H.
  - exists s. reflexivity.
  - destruct s as [| b s]; simpl in H; [discriminate H |].
    destruct (ascii_dec a b) as [<- | _]; [| discriminate H].
    destruct (IH s H) as [rest ->]. exists rest. reflexivity.
Qed.

(** X21. The segment kept of [execPath] is a prefix of it, and it is either
    the whole path or ends with [.app]. *)
Theorem firstAppSegment_prefix (s : string) :
  (exists rest, s = (firstAppSegment s ++ rest)%string)
  /\ (firstAppSegment s = s
      \/ exists front, firstAppSegment s = (front ++ ".app")%string).
Proof.
  induction s as [| c s [[rest Hrest] Hend]].
  - split; [exists EmptyString; reflexivity | now left].
  - cbn [firstAppSegment].
    destruct (prefix ".app" (String c s)) eqn:Hp.
    + apply prefix_split in Hp as [rest' Hp]. split.
      * exists rest'. exact Hp.
      * right. exists EmptyString. reflexivity.
    + split.
      * exists rest. simpl. now rewrite <- Hrest.
      * destruct Hend as [-> | [front ->]]; [now left |].
        right. exists (String c front). reflexivity.
Qed.

(* ================================================================== *)
(** ** The folding range provider *)

Section FoldingRanges.

Import Folding.

(** Induction on a view, with the property of the views directly below. *)
Lemma View_below_ind (P : View -> Prop) :
  (forall v, Forall P (subViews v) -> P v) -> forall v, P v.
Proof.
  intro H. fix IH 1. intros [f s e subs]. apply H. simpl.
  induction subs as [| c subs IHsubs]; constructor.
  - apply IH.
  - exact IHsubs.
Qed.

Lemma list_sum_cons (a : nat) (l : list nat) :
  list_sum (a :: l) = a + list_sum l.
Proof. reflexivity. Qed.

Lemma flattenBelow_subViews (v : View) :
  flattenBelow v = flattenSubviews (subViews v).
Proof. destruct v. reflexivity. Qed.

Lemma sizeBelow_subViews (v : View) : sizeBelow v = forestSize (subViews v).
Proof. destruct v. reflexivity. Qed.

Lemma flattenBelow_length (v : View) :
  List.length (flattenBelow v) = sizeBelow v.
Proof.
  induction v as [v IH] using View_below_ind.
  rewrite flattenBelow_subViews, sizeBelow_subViews.
  unfold flattenSubviews, forestSize. rewrite length_app.
  induction (subViews v) as [| c l IHl]; [reflexivity |].
  inversion IH as [| c' l' Hc Hl]; subst.
  cbn [flat_map map List.length]. rewrite length_app, Hc, list_sum_cons.
  specialize (IHl Hl). lia.
Qed.

Lemma flattenSubviews_length (l : list View) :
  List.length (flattenSubviews l) = forestSize l.
Proof.
  unfold flattenSubviews, forestSize. rewrite length_app.
  induction l as [| c l IH]; [reflexivity |].
  cbn [flat_map map List.length].
  rewrite length_app, flattenBelow_length, list_sum_cons. lia.
Qed.

Lemma Within_flattenBelow (v : View) :
  forall d, In d (flattenBelow v) <-> Within d (subViews v).
Proof.
  induction v as [v IH] using View_below_ind. intro d.
  rewrite flattenBelow_subViews. unfold flattenSubviews.
  rewrite Forall_forall in IH.
  split.
  - intro Hd. apply in_app_or in Hd as [Hd | Hd].
    + apply in_flat_map in Hd as [c [Hc Hd]].
      apply Within_below with (c := c); [exact Hc |].
      now apply (IH c Hc).
    + now apply Within_here.
  - intro Hw. inversion Hw as [l Hin | c l Hc Hbelow]; subst.
    + apply in_or_app. now right.
    + apply in_or_app. left. apply in_flat_map. exists c.
      split; [exact Hc |]. now apply (IH c Hc).
Qed.

Lemma Within_flattenSubviews (l : list View) (d : View) :
  In d (flattenSubviews l) <-> Within d l.
Proof.
  unfold flattenSubviews. split.
  - intro Hd. apply in_app_or in Hd as [Hd | Hd].
    + apply in_flat_map in Hd as [c [Hc Hd]].
      apply Within_below with (c := c); [exact Hc |].
      now apply Within_flattenBelow.
    + now apply Within_here.
  - intro Hw. inversion Hw as [l' Hin | c l' Hc Hbelow]; subst.
    + apply in_or_app. now right.
    + apply in_or_app. left. apply in_flat_map. exists c.
      split; [exact Hc |]. now apply Within_flattenBelow.
Qed.

(** X22. Flattening lists exactly the views of the forest, at every depth:
    a view is in the result exactly when it is within the forest, and the
    result has one element for each view of the forest. *)
Theorem flattenSubviews_complete (l : list View) :
  (forall d, In d (flattenSubviews l) <-> Within d l)
  /\ List.length (flattenSubviews l) = forestSize l.
Proof.
  split.
  - intro d. apply Within_flattenSubviews.
  - apply flattenSubviews_length.
Qed.

(** X23. In the flattened list a view comes behind the views below it:
    every view of the forest has an occurrence in the result in front of
    which every view within its subviews occurs. *)
Theorem flattenSubviews_below_first (l : list View) (v : View) :
  Within v l ->
  exists pre post,
    flattenSubviews l = pre ++ v :: post
    /\ forall d, Within d (subViews v) -> In d pre.
Proof.
  intro Hw. induction Hw as [l Hin | c l Hc Hbelow IH].
  - apply in_split in Hin as [l1 [l2 ->]].
    exists (flat_map flattenBelow (l1 ++ v :: l2) ++ l1), l2.
    split.
    + unfold flattenSubviews. now rewrite <- app_assoc.
    + intros d Hd. apply in_or_app. left.
      apply in_flat_map. exists v. split.
      * apply in_or_app. right. now left.
      * now apply Within_flattenBelow.
  - destruct IH as [pre [post [E Hpre]]].
    apply in_split in Hc as [l1 [l2 ->]].
    exists (flat_map flattenBelow l1 ++ pre),
           (post ++ flat_map flattenBelow l2 ++ l1 ++ c :: l2).
    split.
    + unfold flattenSubviews. rewrite flat_map_app.
      cbn [flat_map]. rewrite flattenBelow_subViews, E.
      rewrite <- !app_assoc. cbn [app]. reflexivity.
    + intros d Hd. apply in_or_app. right. now apply Hpre.
Qed.

Variable getCurrentMagitRepo : TextDocument -> option ViewRepository.
Variable uriToString : Uri -> string.

Lemma pushFoldable_filter (ranges : list FoldingRange) (l : list View) :
  pushFoldable ranges l = ranges ++ map rangeOf (filter isFoldable l).
Proof.
  unfold pushFoldable. revert ranges.
  induction l as [| v l IH]; intro ranges; simpl.
  - now rewrite app_nil_r.
  - rewrite IH. destruct (isFoldable v); simpl; [| reflexivity].
    now rewrite <- app_assoc.
Qed.

(** X24. The provider returns no range when the document belongs to no
    repository, when the repository has no views, and when the views have
    no entry for the uri of the document.  Otherwise a range is returned
    exactly for the foldable views within the subviews of the view of the
    document, with its first and last line; the view of the document itself
    gives none, and there are at most as many ranges as views below it. *)
Theorem provideFoldingRanges_ranges (doc : TextDocument) :
  let ranges := provideFoldingRanges getCurrentMagitRepo uriToString doc in
  (getCurrentMagitRepo doc = None -> ranges = [])
  /\ (forall repo, getCurrentMagitRepo doc = Some repo ->
                   views repo = None -> ranges = [])
  /\ (forall repo vs,
        getCurrentMagitRepo doc = Some repo -> views repo = Some vs ->
        mapGet (uriToString (uri doc)) vs = None -> ranges = [])
  /\ (forall repo vs currentView,
        getCurrentMagitRepo doc = Some repo -> views repo = Some vs ->
        mapGet (uriToString (uri doc)) vs = Some currentView ->
        ranges
        = map rangeOf
            (filter isFoldable (flattenSubviews (subViews currentView)))
        /\ (forall r, In r ranges <->
                      exists d, Within d (subViews currentView)
                                /\ isFoldable d = true
                                /\ r = (startLine d, endLine d))
        /\ List.length ranges <= forestSize (subViews currentView)
        /\ (subViews currentView = [] -> ranges = [])).
Proof.
  intro ranges. subst ranges. unfold provideFoldingRanges. cbv zeta.
  split; [| split; [| split]].
  - intros ->. reflexivity.
  - intros repo -> ->. reflexivity.
  - intros repo vs -> -> ->. reflexivity.
  - intros repo vs currentView -> -> ->.
    rewrite pushFoldable_filter. cbn [app].
    split; [reflexivity |]. split; [| split].
    + intro r. rewrite in_map_iff. split.
      * intros [d [<- Hd]]. apply filter_In in Hd as [Hd Hf].
        exists d. split; [now apply Within_flattenSubviews |].
        split; [exact Hf | reflexivity].
      * intros [d [Hw [Hf ->]]]. exists d. split; [reflexivity |].
        apply filter_In. split; [now apply Within_flattenSubviews | exact Hf].
    + rewrite length_map, <- flattenSubviews_length.
      generalize (flattenSubviews (subViews currentView)) as l.
      induction l as [| x l IH]; simpl; [lia |].
      destruct (isFoldable x); simpl; lia.
    + intros ->. reflexivity.
Qed.

End FoldingRanges.

(* ================================================================== *)
(** ** Instances *)

Lemma direct_actions_are_read_only_witness :
  isSetAction act_pushTag = false
  /\ repository
       (snd (invoke Sample.deps More.host act_pushTag
               (mkMenuState Sample.someSwitches)
               (startWorld More.pushConfigured)))
     = More.pushConfigured.
Proof.
  split; [reflexivity |].
  exact (proj1 (@direct_actions_are_read_only Sample.deps More.host
                  act_pushTag (mkMenuState Sample.someSwitches)
                  (startWorld More.pushConfigured) eq_refl)).
Defined.

Lemma fetching_p_item_fetches_witness :
  headPushRemote More.pushConfigured = Some (mkTracking "main" "origin")
  /\ exists i,
       itemLabelled (fst (fetching More.pushConfigured)) "p" = Some i
       /\ action i = act_fetchFromPushRemote
       /\ invoke Sample.deps More.host (action i)
            (mkMenuState Sample.someSwitches) (mkWorld More.pushConfigured [])
          = (Returned (Some (mkOutput "done" EmptyString)),
             mkWorld More.pushConfigured
               [EvGitRun ["fetch"; "--force-with-lease"; "--dry-run"; "origin"]
                         None]).
Proof.
  split; [reflexivity |].
  exact (@fetching_p_item_fetches Sample.deps More.host More.pushConfigured
           (mkTracking "main" "origin") (mkMenuState Sample.someSwitches) []
           eq_refl).
Defined.

Lemma pushing_p_item_witness :
  exists i,
    itemLabelled (fst (pushing More.pushConfigured)) "p" = Some i
    /\ mi_description i = "origin/main"
    /\ action i = act_pushToPushRemote
    /\ invoke Sample.deps More.host (action i)
         (mkMenuState Sample.someSwitches) (mkWorld More.pushConfigured [])
       = (Returned (Some (mkOutput "done" EmptyString)),
          mkWorld More.pushConfigured
            [EvGitRun ["push"; "--force-with-lease"; "--dry-run";
                       "origin"; "main"] None]).
Proof.
  assert (Hr : tr_remote (mkTracking "main" "origin") <> empty)
    by discriminate.
  assert (Hn : "main" <> empty) by discriminate.
  exact (proj1 (@pushing_p_item Sample.deps More.host More.pushConfigured
                  (mkMenuState Sample.someSwitches) [])
               (mkTracking "main" "origin") "main" eq_refl Hr eq_refl Hn).
Defined.

Lemma fetchAnotherBranch_inputs_witness :
  fetchAnotherBranch More.host (mkMenuState Sample.someSwitches)
    (mkWorld Sample.fresh [])
  = (Returned (Some (mkOutput "done" EmptyString)),
     mkWorld Sample.fresh
       [ EvInputBox "Fetch from remote or url"; EvInputBox "Fetch branch";
         EvGitRun ["fetch"; "--force-with-lease"; "--dry-run"; "upstream";
                   "refs/heads/topic"] None ]).
Proof.
  exact (proj2 (proj2 (@fetchAnotherBranch_inputs More.host
                         (mkMenuState Sample.someSwitches) Sample.fresh []))
               "upstream" "topic" eq_refl eq_refl).
Defined.

Lemma tag_pushes_witness :
  headUpstreamRemote More.pushConfigured = None
  /\ pushTag More.host (mkMenuState Sample.someSwitches)
       (mkWorld More.pushConfigured [])
     = (Returned (Some (mkOutput "done" EmptyString)),
        mkWorld More.pushConfigured
          [ EvChooseTag "Push tag";
            EvGitRun ["push"; "--force-with-lease"; "--dry-run"; "origin";
                      "v1.0.0"] None ]).
Proof.
  split; [reflexivity |].
  destruct (@tag_pushes More.host (mkMenuState Sample.someSwitches)
              More.pushConfigured []) as [_ [_ [Hwith _]]].
  exact (proj2 (Hwith "origin" eq_refl) "v1.0.0" eq_refl).
Defined.

Lemma pushSetUpstream_declined_witness :
  pushSetUpstream Sample.deps More.host (mkMenuState Sample.someSwitches)
    (startWorld Sample.fresh)
  = (Returned None,
     mkWorld Sample.fresh [EvQuickMenu (upstreamItems Sample.deps Sample.fresh)]).
Proof.
  exact (proj1 (@pushSetUpstream_declined Sample.deps More.host
                  (mkMenuState Sample.someSwitches) Sample.fresh)
               "chooser failed" eq_refl).
Defined.

Lemma pushSetPushRemote_declined_witness :
  pushSetPushRemote More.host (mkMenuState Sample.someSwitches)
    (startWorld Sample.fresh)
  = (Thrown "chooser failed",
     mkWorld Sample.fresh [EvQuickMenu (remoteItems Sample.fresh)]).
Proof.
  exact (proj1 (@pushSetPushRemote_declined More.host
                  (mkMenuState Sample.someSwitches) Sample.fresh)
               "chooser failed" eq_refl).
Defined.

Lemma menus_after_pushSetPushRemote_witness :
  headName Sample.fresh = Some "main"
  /\ itemLabelled
       (fst (pushing
               (repository
                  (snd (pushSetPushRemote
                          (Sample.host (Some "origin") Sample.failed [])
                          (mkMenuState Sample.someSwitches)
                          (startWorld Sample.fresh))))))
       "p"
     = Some (mkMenuItem "p" "origin/main" act_pushToPushRemote).
Proof.
  assert (Hb : "main" <> empty) by discriminate.
  assert (Hr : "origin" <> empty) by discriminate.
  split; [reflexivity |].
  exact (proj1 (@menus_after_pushSetPushRemote
                  (Sample.host (Some "origin") Sample.failed [])
                  (mkMenuState Sample.someSwitches) Sample.fresh
                  "main" "origin" eq_refl Hb Hr eq_refl eq_refl)).
Defined.

Lemma menus_after_pushSetUpstream_witness :
  headUpstream Sample.fresh = None
  /\ itemLabelled
       (fst (pushing
               (repository
                  (snd (pushSetUpstream Sample.deps
                          (Sample.host (Some "origin/dev") Sample.succeeded [])
                          (mkMenuState Sample.someSwitches)
                          (startWorld Sample.fresh))))))
       "u"
     = Some (mkMenuItem "u" "@{upstream}, after setting that"
                        act_pushSetUpstream).
Proof.
  assert (Hc : "main" <> empty) by discriminate.
  assert (Hch : "origin/dev" <> empty) by discriminate.
  assert (Hr : "origin" <> empty) by discriminate.
  assert (Hn : "dev" <> empty) by discriminate.
  split; [reflexivity |].
  exact (proj1 (proj2 (proj2
           (@menus_after_pushSetUpstream Sample.deps
              (Sample.host (Some "origin/dev") Sample.succeeded [])
              (mkMenuState Sample.someSwitches) Sample.fresh
              "main" "origin/dev" "origin" "dev"
              eq_refl Hc eq_refl eq_refl Hch eq_refl Hr Hn
              eq_refl eq_refl)))).
Defined.

Lemma commit_success_reported_witness :
  gitRunOutcome (Sample.host None Sample.succeeded [Sample.preview]) ["commit"]
  = Fulfilled (mkOutput "done" EmptyString)
  /\ cleanupCompletes Sample.deps
       (Sample.host None Sample.succeeded [Sample.preview]) ["commit"] None
  /\ fst (runCommitLikeCommand Sample.deps
            (Sample.host None Sample.succeeded [Sample.preview])
            ["commit"] None startFrame)
     = Returned tt.
Proof.
  split; [reflexivity | split; [reflexivity |]].
  exact (proj1 (@commit_success_reported Sample.deps
                  (Sample.host None Sample.succeeded [Sample.preview])
                  ["commit"] None (mkOutput "done" EmptyString)
                  eq_refl eq_refl)).
Defined.

Lemma preview_failure_raised_witness :
  previewOutcome Sample.hostNoPreview = Rejected "cannot open"
  /\ fst (runCommitLikeCommand Sample.deps Sample.hostNoPreview
            ["commit"] (Some (mkOptions None (Some true) None (Some true)))
            startFrame)
     = Thrown "cannot open".
Proof.
  split; [reflexivity |].
  exact (proj1 (@preview_failure_raised Sample.deps Sample.hostNoPreview
                  ["commit"]
                  (Some (mkOptions None (Some true) None (Some true)))
                  "cannot open" eq_refl eq_refl)).
Defined.

Lemma no_preview_no_cleanup_witness :
  truthyBool (showStagedChanges (inForce (Some More.bare))) = false
  /\ fst (runCommitLikeCommand Sample.deps
            (Sample.host None Sample.failed [Sample.preview])
            ["commit"] (Some More.bare) startFrame)
     = Returned tt.
Proof.
  split; [reflexivity |].
  exact (proj2 (@no_preview_no_cleanup Sample.deps
                  (Sample.host None Sample.failed [Sample.preview])
                  ["commit"] (Some More.bare) eq_refl)).
Defined.

Lemma commit_items_run_orchestrator_witness :
  In (mkCommitMenuItem "a" "Amend" (act_commit ["--amend"])) (snd commitMenu)
  /\ fst (invokeCommit Sample.deps
            (Sample.host None Sample.failed [Sample.preview]) More.noCommit
            (act_commit ["--amend"]) (mkMenuState Sample.someSwitches)
            startCommitWorld)
     = Returned None.
Proof.
  assert (Hin : In (mkCommitMenuItem "a" "Amend" (act_commit ["--amend"]))
                   (snd commitMenu))
    by (right; left; reflexivity).
  split; [exact Hin |].
  destruct (@commit_items_run_orchestrator Sample.deps
              (Sample.host None Sample.failed [Sample.preview]) More.noCommit
              (mkCommitMenuItem "a" "Amend" (act_commit ["--amend"]))
              ["--amend"] (mkMenuState Sample.someSwitches) Hin eq_refl)
    as [_ [_ [_ Hres]]].
  exact (Hres eq_refl).
Defined.

Lemma fixup_outcomes_witness :
  invokeCommit Sample.deps (Sample.host None Sample.succeeded [])
    More.noCommit act_fixup (mkMenuState Sample.someSwitches)
    startCommitWorld
  = (Thrown "No commit chosen to fixup",
     mkCommitWorld ["Fixup commit"] startFrame).
Proof.
  exact (proj1 (@fixup_outcomes Sample.deps
                  (Sample.host None Sample.succeeded [])
                  More.noCommit (mkMenuState Sample.someSwitches))
               eq_refl).
Defined.

Lemma flattenSubviews_below_first_witness :
  Folding.Within More.section [More.root]
  /\ exists pre post,
       Folding.flattenSubviews [More.root] = pre ++ More.section :: post
       /\ forall d, Folding.Within d (Folding.subViews More.section) ->
                    In d pre.
Proof.
  assert (Hw : Folding.Within More.section [More.root]).
  { apply Folding.Within_below with (c := More.root); [now left |].
    apply Folding.Within_here. right. now left. }
  split; [exact Hw |].
  exact (@flattenSubviews_below_first [More.root] More.section Hw).
Defined.

Example flattenSubviews_sample :
  Folding.flattenSubviews [More.root]
  = [ More.leaf true 3 5; More.leaf false 6 9;
      More.leaf false 0 1; More.section; More.root ].
Proof. reflexivity. Qed.

Lemma provideFoldingRanges_ranges_witness :
  Folding.provideFoldingRanges More.currentRepo More.text More.document
  = [(3, 5); (2, 9)]%Z.
Proof.
  destruct (@provideFoldingRanges_ranges More.currentRepo More.text
              More.document) as [_ [_ [_ Hfound]]].
  destruct (Hfound _ _ More.root eq_refl eq_refl eq_refl) as [E _].
  exact E.
Defined.

Lemma refresh_iff_updatePostCommitTask_witness :
  In EvStatusAndUpdate
     (frame_trace
        (snd (runCommitLikeCommand Sample.deps
                (Sample.host None Sample.succeeded [])
                ["commit"]
                (Some (mkOptions (Some true) None None None)) startFrame)))
  /\ ~ In EvStatusAndUpdate
          (frame_trace
             (snd (runCommitLikeCommand Sample.deps
                     (Sample.host None Sample.succeeded [])
                     ["commit"] None startFrame))).
Proof.
  split.
  - apply (proj1 (@refresh_iff_updatePostCommitTask Sample.deps
                    (Sample.host None Sample.succeeded []) ["commit"]
                    (Some (mkOptions (Some true) None None None)))).
    exists (mkOptions (Some true) None None None). split; reflexivity.
  - intro H.
    apply (proj1 (@refresh_iff_updatePostCommitTask Sample.deps
                    (Sample.host None Sample.succeeded []) ["commit"] None))
      in H as [o [Ho _]].
    discriminate Ho.
Defined.
